(** * protonmail-mcp: the send_email / health_check pipeline of [src/index.ts]

    A shallow embedding of the request validation, normalisation and
    admission-control code of the server, together with the health report,
    and the properties its specification states about them.

    Conventions of the embedding.
    - A JavaScript string is the list of its UTF-16 code units ([jsstring]).
    - Functions that [throw] return an [Outcome]; the handler, which also
      mutates the two module-level variables [rateLimiterState] and
      [lastSendResult] and talks to the clock and to the SMTP transport, lives
      in a state-and-exception monad [M] over a [Machine].
    - What the JavaScript runtime and the libraries provide
      ([String.prototype.toLowerCase], number-to-string conversion,
      [Date.prototype.toISOString], zod's built-in issue messages) is taken as
      a parameter of the development ([Section Server]).
    - Clock readings, the send count and a finite rate limit are integers, in
      the range where JavaScript numbers are exact.
    - The handler is [async] and awaits the transport; the model runs each
      call to its end before the next one starts ([serve]).
    - [request.params.arguments] is an object or absent (the protocol layer
      has validated the request), so the handler's argument check fails for
      an absent value only.
    - [console.error] logging has no effect on any value modelled here and is
      left out. *)

From Stdlib Require Import ZArith NArith List String Ascii Lia Bool DecimalString.
From stdpp Require Import base decidable countable list gmap.

Local Open Scope Z_scope.

(** ** Strings *)

Definition jsstring : Type := list N.

(** The code units of an ASCII literal of the source. *)
Definition js (s : string) : jsstring :=
  List.map N_of_ascii (list_ascii_of_string s).
Arguments js s : simpl never.

Definition CR : N := 13%N.
Definition LF : N := 10%N.
Definition COMMA : N := 44%N.

(** [HEADER_INJECTION_PATTERN = /[\r\n]/]: the pattern has no [g] or [y] flag,
    so [test] is a pure search for a CR or an LF. *)
Definition isLineBreak (c : N) : bool := N.eqb c CR || N.eqb c LF.

Definition HEADER_INJECTION_PATTERN_test (value : jsstring) : bool :=
  List.existsb isLineBreak value.

(** The code units [String.prototype.trim] strips: ECMAScript's WhiteSpace and
    LineTerminator productions (all of them in the basic plane). *)
Definition whiteSpaceUnits : list N :=
  [9; 10; 11; 12; 13; 32; 160; 5760;
   8192; 8193; 8194; 8195; 8196; 8197; 8198; 8199; 8200; 8201; 8202;
   8232; 8233; 8239; 8287; 12288; 65279]%N.

Definition isWhiteSpace (c : N) : bool :=
  List.existsb (N.eqb c) whiteSpaceUnits.

Fixpoint trimStart (s : jsstring) : jsstring :=
  match s with
  | [] => []
  | c :: s' => if isWhiteSpace c then trimStart s' else s
  end.

Definition trimEnd (s : jsstring) : jsstring := rev (trimStart (rev s)).

Definition trim (s : jsstring) : jsstring := trimEnd (trimStart s).

(** [s.split(sep)] for a separator of one code unit: always at least one
    piece, and [[""]] for the empty string. *)
Fixpoint split (sep : N) (s : jsstring) : list jsstring :=
  match s with
  | [] => [[]]
  | c :: s' =>
      if N.eqb c sep then [] :: split sep s'
      else match split sep s' with
           | [] => [[c]]
           | p :: ps => (c :: p) :: ps
           end
  end.

(** [list.join(sep)] *)
Fixpoint join (sep : jsstring) (l : list jsstring) : jsstring :=
  match l with
  | [] => []
  | [p] => p
  | p :: ps => p ++ sep ++ join sep ps
  end.

Definition nonEmpty (s : jsstring) : bool :=
  match s with [] => false | _ :: _ => true end.

Definition jsstring_eqb (a b : jsstring) : bool := bool_decide (a = b).

(** ** Errors *)

Inductive ErrorCode : Type :=
| InvalidParams
| InvalidRequest
| InternalError
| MethodNotFound.

(** [new McpError(code, message)], with the message handed to the constructor. *)
Record McpError : Type := mkMcpError { code : ErrorCode; message : jsstring }.

Inductive Outcome (A : Type) : Type :=
| Return (a : A)
| Throw (e : McpError).
Arguments Return {A} a.
Arguments Throw {A} e.

Definition obind {A B} (o : Outcome A) (k : A -> Outcome B) : Outcome B :=
  match o with
  | Return a => k a
  | Throw e => Throw e
  end.

Declare Scope m_scope.
Delimit Scope m_scope with m.
Notation "x <~ o ;; k" := (obind o (fun x => k))
  (at level 100, o at next level, right associativity) : m_scope.

(** ** TLS configuration *)

Definition allowedTlsVersions : list jsstring :=
  [js "TLSv1"; js "TLSv1.1"; js "TLSv1.2"; js "TLSv1.3"].

Definition normalizeTlsVersion (version : jsstring) : jsstring :=
  if List.existsb (jsstring_eqb version) allowedTlsVersions
  then version
  else js "TLSv1.2".

(** ** Header sanitising and recipient lists *)

Definition newlineError (fieldName : jsstring) : McpError :=
  mkMcpError InvalidParams
    (js "'" ++ fieldName ++ js "' cannot include newline characters").

Definition sanitizeHeaderField (value fieldName : jsstring) : Outcome jsstring :=
  if HEADER_INJECTION_PATTERN_test value
  then Throw (newlineError fieldName)
  else Return (trim value).

(** [rawValue : string | undefined]; [!rawValue] holds for [undefined] and
    for the empty string. *)
Definition normalizeRecipientList (rawValue : option jsstring)
    (fieldName : jsstring) : Outcome (list jsstring) :=
  match rawValue with
  | None => Return []
  | Some [] => Return []
  | Some raw =>
      if HEADER_INJECTION_PATTERN_test raw
      then Throw (newlineError fieldName)
      else Return (List.filter nonEmpty (List.map trim (split COMMA raw)))
  end.

Definition formatRecipientField (l : list jsstring) : option jsstring :=
  match l with
  | [] => None
  | _ => Some (join (js ", ") l)
  end.

(** ** The tool arguments and their zod schema *)

(** A JSON value as [sendEmailSchema] sees it: the schema only looks at the
    type of a field and, for strings, at its length.  A key that is missing
    ([undefined]) is a failed lookup in the argument object. *)
Inductive JsValue : Type :=
| JNull
| JBoolean (b : bool)
| JNumber
| JString (s : jsstring)
| JObject.

Inductive ZodType : Type := ZodString | ZodBoolean.

Record ZodIssue : Type := mkIssue { path : list jsstring; issue_message : jsstring }.

Record ParsedArgs : Type := mkParsedArgs {
  raw_to : jsstring;
  raw_subject : jsstring;
  raw_body : jsstring;
  raw_isHtml : option bool;
  raw_cc : option jsstring;
  raw_bcc : option jsstring
}.

Record NormalizedEmailArgs : Type := mkNormalizedEmailArgs {
  n_to : list jsstring;
  n_subject : jsstring;
  n_body : jsstring;
  n_isHtml : bool;
  n_cc : list jsstring;
  n_bcc : list jsstring
}.

(** ** The mail transport *)

(** [EmailMessage] of [email-service.ts]. *)
Record EmailMessage : Type := mkEmailMessage {
  msg_to : jsstring;
  msg_subject : jsstring;
  msg_body : jsstring;
  msg_isHtml : bool;
  msg_cc : option jsstring;
  msg_bcc : option jsstring
}.

(** The options [EmailService.sendEmail] hands to [transporter.sendMail]. *)
Record MailOptions : Type := mkMailOptions {
  mail_from : jsstring;
  mail_to : jsstring;
  mail_cc : option jsstring;
  mail_bcc : option jsstring;
  mail_subject : jsstring;
  mail_text : option jsstring;
  mail_html : option jsstring
}.

(** A value a promise rejects with: an [Error] object with its [message], or
    any other value with its [String(...)] rendering. *)
Inductive Thrown : Type :=
| ErrorObject (msg : jsstring)
| OtherValue (rendering : jsstring).

(** [error instanceof Error ? error.message : String(error)] *)
Definition errorText (e : Thrown) : jsstring :=
  match e with
  | ErrorObject msg => msg
  | OtherValue rendering => rendering
  end.

Inductive Settled (A : Type) : Type :=
| Resolved (a : A)
| Rejected (e : Thrown).
Arguments Resolved {A} a.
Arguments Rejected {A} e.

(** The [info] object of a send, of which only [messageId] is read. *)
Record SentMessageInfo : Type := mkInfo { messageId : option jsstring }.

(** What the process did to the transport, oldest first. *)
Inductive Event : Type :=
| EvSendMail (opts : MailOptions)
| EvVerify.


(** The outside world.  Every interaction (a clock reading, a send, a
    verify) is numbered, and the world answers the [n]th interaction.
    [clock] is [Date.now()]: a time value in milliseconds. *)
Record World : Type := mkWorld {
  clock : nat -> Z;
  sendMail : nat -> MailOptions -> Settled SentMessageInfo;
  verify : nat -> Settled unit
}.

(** ** Configuration *)

(** A JavaScript number as [parseInt] yields it: an integer, [NaN], or an
    infinity (for a digit string beyond the range of a double). *)
Inductive number : Type :=
| Finite (z : Z)
| NaN
| PosInfinity
| NegInfinity.

Definition Number_isFinite (n : number) : bool :=
  match n with Finite _ => true | _ => false end.

(** [n <= 0] *)
Definition number_le_zero (n : number) : bool :=
  match n with
  | Finite z => z <=? 0
  | NegInfinity => true
  | NaN | PosInfinity => false
  end.

(** [n > 0] *)
Definition number_gt_zero (n : number) : bool :=
  match n with
  | Finite z => 0 <? z
  | PosInfinity => true
  | NaN | NegInfinity => false
  end.

(** [c >= n] for an integer [c] *)
Definition ge_number (c : Z) (n : number) : bool :=
  match n with
  | Finite z => z <=? c
  | NegInfinity => true
  | NaN | PosInfinity => false
  end.

Record Config : Type := mkConfig {
  PROTONMAIL_USERNAME : jsstring;
  RATE_LIMIT_PER_MINUTE : number;
  ALLOW_LIST : gset jsstring
}.

(** What the JavaScript runtime and zod provide. *)
Record Runtime : Type := mkRuntime {
  toLowerCase : jsstring -> jsstring;
  numberToString : number -> jsstring;
  (** [new Date(t).toISOString()], for a time value [t] read from the clock *)
  toISOString : Z -> jsstring;
  (** zod's message for a value of the wrong type ([None]: a missing key) *)
  zodInvalidType : ZodType -> option JsValue -> jsstring;
  (** zod's message for a string longer than the maximum *)
  zodTooBig : Z -> jsstring
}.

(** [ALLOW_LIST] as the module builds it from [PROTONMAIL_ALLOW_LIST]:
    [split(",")], [trim().toLowerCase()] on each entry, [filter(Boolean)]. *)
Definition parseAllowList (rt : Runtime) (env : jsstring) : gset jsstring :=
  list_to_set
    (List.filter nonEmpty
       (List.map (fun entry => toLowerCase rt (trim entry)) (split COMMA env))).

(** ** Process state *)

Record RateLimiterState : Type := mkRateLimiterState {
  windowStart : Z;
  count : Z
}.

Inductive LastSendResult : Type :=
| SendSuccess (timestamp : Z) (details : option jsstring)
| SendError (timestamp : Z) (error : jsstring).

(** The two module-level variables, the number of interactions with the
    world so far, and the transport events so far. *)
Record Machine : Type := mkMachine {
  rateLimiterState : RateLimiterState;
  lastSendResult : option LastSendResult;
  ticks : nat;
  trace : list Event
}.

Definition M (A : Type) : Type := Machine -> Outcome A * Machine.

Definition ret {A} (a : A) : M A := fun m => (Return a, m).
Definition throw {A} (e : McpError) : M A := fun m => (Throw e, m).
Definition bind {A B} (c : M A) (k : A -> M B) : M B :=
  fun m => match c m with
           | (Return a, m') => k a m'
           | (Throw e, m') => (Throw e, m')
           end.
Definition lift {A} (o : Outcome A) : M A := fun m => (o, m).

Notation "x <- c ;; k" := (bind c (fun x => k))
  (at level 100, c at next level, right associativity) : m_scope.
Notation "c ;;; k" := (bind c (fun _ => k))
  (at level 100, right associativity) : m_scope.

Record CallToolRequest : Type := mkRequest {
  name : jsstring;
  arguments : option (gmap jsstring JsValue)
}.

(** [{ content: [{ type: "text", text }] }] *)
Record CallToolResult : Type := mkResult { text : jsstring }.

Definition SEND_TOOL_NAME : jsstring := js "send_email".
Definition HEALTH_TOOL_NAME : jsstring := js "health_check".

Definition set_rateLimiterState (st : RateLimiterState) (m : Machine) : Machine :=
  mkMachine st (lastSendResult m) (ticks m) (trace m).

Definition set_lastSendResult (r : LastSendResult) (m : Machine) : Machine :=
  mkMachine (rateLimiterState m) (Some r) (ticks m) (trace m).

(** One more interaction with the world, and possibly one more event. *)
Definition interact (ev : list Event) (m : Machine) : Machine :=
  mkMachine (rateLimiterState m) (lastSendResult m) (S (ticks m)) (trace m ++ ev).

Section Server.

Variable rt : Runtime.
Variable cfg : Config.
Variable world : World.

(** *** [sendEmailSchema] *)

(** [z.string().min(1, requiredMessage).max(maximum)]: both length checks
    run, each adding its issue. *)
Definition zodRequiredString (key requiredMessage : jsstring) (maximum : Z)
    (v : option JsValue) : list ZodIssue + jsstring :=
  match v with
  | Some (JString s) =>
      let len := Z.of_nat (length s) in
      match (if len <? 1 then [mkIssue [key] requiredMessage] else [])
            ++ (if maximum <? len
                then [mkIssue [key] (zodTooBig rt maximum)]
                else []) with
      | [] => inr s
      | issues => inl issues
      end
  | other => inl [mkIssue [key] (zodInvalidType rt ZodString other)]
  end.

(** [z.string().optional()] *)
Definition zodOptionalString (key : jsstring) (v : option JsValue)
    : list ZodIssue + option jsstring :=
  match v with
  | None => inr None
  | Some (JString s) => inr (Some s)
  | other => inl [mkIssue [key] (zodInvalidType rt ZodString other)]
  end.

(** [z.boolean().optional()] *)
Definition zodOptionalBoolean (key : jsstring) (v : option JsValue)
    : list ZodIssue + option bool :=
  match v with
  | None => inr None
  | Some (JBoolean b) => inr (Some b)
  | other => inl [mkIssue [key] (zodInvalidType rt ZodBoolean other)]
  end.

Definition issuesOf {T} (r : list ZodIssue + T) : list ZodIssue :=
  match r with inl issues => issues | inr _ => [] end.

(** [sendEmailSchema.parse(args)]: the fields are checked in the order of
    the schema and all issues are collected. *)
Definition sendEmailSchema_parse (args : gmap jsstring JsValue)
    : list ZodIssue + ParsedArgs :=
  let to := zodRequiredString (js "to") (js "'to' is required") 2048
              (args !! js "to") in
  let subject := zodRequiredString (js "subject") (js "'subject' is required")
                   512 (args !! js "subject") in
  let body := zodRequiredString (js "body") (js "'body' is required") 20000
                (args !! js "body") in
  let isHtml := zodOptionalBoolean (js "isHtml") (args !! js "isHtml") in
  let cc := zodOptionalString (js "cc") (args !! js "cc") in
  let bcc := zodOptionalString (js "bcc") (args !! js "bcc") in
  match to, subject, body, isHtml, cc, bcc with
  | inr t, inr s, inr b, inr h, inr c, inr bc =>
      inr (mkParsedArgs t s b h c bc)
  | _, _, _, _, _, _ =>
      inl (issuesOf to ++ issuesOf subject ++ issuesOf body
           ++ issuesOf isHtml ++ issuesOf cc ++ issuesOf bcc)
  end.

Definition renderIssue (issue : ZodIssue) : jsstring :=
  let p := join (js ".") (path issue) in
  (if nonEmpty p then p else js "input") ++ js ": " ++ issue_message issue.

Definition parseSendEmailArgs (args : gmap jsstring JsValue)
    : Outcome ParsedArgs :=
  match sendEmailSchema_parse args with
  | inr parsed => Return parsed
  | inl issues =>
      Throw (mkMcpError InvalidParams
               (join (js "; ") (List.map renderIssue issues)))
  end.

(** *** Normalisation *)

Definition normalizeEmailArgs (rawArgs : ParsedArgs)
    : Outcome NormalizedEmailArgs :=
  (toList <~ normalizeRecipientList (Some (raw_to rawArgs)) (js "to") ;;
   match toList with
   | [] => Throw (mkMcpError InvalidParams
                    (js "At least one recipient is required"))
   | _ :: _ =>
       ccList <~ normalizeRecipientList (raw_cc rawArgs) (js "cc") ;;
       bccList <~ normalizeRecipientList (raw_bcc rawArgs) (js "bcc") ;;
       subject <~ sanitizeHeaderField (raw_subject rawArgs) (js "subject") ;;
       Return (mkNormalizedEmailArgs toList subject (raw_body rawArgs)
                 (match raw_isHtml rawArgs with
                  | Some true => true
                  | _ => false
                  end)
                 ccList bccList)
   end)%m.

(** *** Allow list *)

Definition allowListEnabled : bool := bool_decide (0 < size (ALLOW_LIST cfg))%nat.

(** [!ALLOW_LIST.has(recipient.toLowerCase())] *)
Definition disallowedRecipient (recipient : jsstring) : bool :=
  negb (bool_decide (toLowerCase rt recipient ∈ ALLOW_LIST cfg)).

Definition enforceAllowList (recipients : list jsstring) : Outcome unit :=
  if negb allowListEnabled then Return tt
  else
    let disallowed := List.filter disallowedRecipient recipients in
    match disallowed with
    | [] => Return tt
    | _ :: _ =>
        Throw (mkMcpError InvalidRequest
                 (js "Recipient(s) not permitted by allow list: "
                  ++ join (js ", ") disallowed))
    end.

(** *** Rate limiter *)

(** [Date.now()] *)
Definition dateNow : M Z :=
  fun m => (Return (clock world (ticks m)), interact [] m).

Definition rateLimitError : McpError :=
  mkMcpError InvalidRequest
    (js "Rate limit exceeded ("
     ++ numberToString rt (RATE_LIMIT_PER_MINUTE cfg)
     ++ js " emails per minute)").

Definition checkRateLimit : M unit :=
  if negb (Number_isFinite (RATE_LIMIT_PER_MINUTE cfg))
     || number_le_zero (RATE_LIMIT_PER_MINUTE cfg)
  then ret tt
  else
    (now <- dateNow ;;
     (fun m =>
        if 60000 <=? now - windowStart (rateLimiterState m)
        then (Return tt, set_rateLimiterState (mkRateLimiterState now 0) m)
        else (Return tt, m)) ;;;
     (fun m =>
        if ge_number (count (rateLimiterState m)) (RATE_LIMIT_PER_MINUTE cfg)
        then (Throw rateLimitError, m)
        else (Return tt,
              set_rateLimiterState
                (mkRateLimiterState (windowStart (rateLimiterState m))
                   (count (rateLimiterState m) + 1)) m)))%m.

(** *** [EmailService] *)

(** [sendEmail]: hands the message to the transport and passes its answer
    on (a rejection is re-thrown as it is). *)
Definition emailService_sendEmail (message : EmailMessage)
    : Machine -> Settled SentMessageInfo * Machine :=
  fun m =>
    let opts :=
      mkMailOptions (PROTONMAIL_USERNAME cfg) (msg_to message)
        (msg_cc message) (msg_bcc message) (msg_subject message)
        (if msg_isHtml message then None else Some (msg_body message))
        (if msg_isHtml message then Some (msg_body message) else None) in
    (sendMail world (ticks m) opts, interact [EvSendMail opts] m).

Definition emailService_verifyConnection : Machine -> Settled unit * Machine :=
  fun m => (verify world (ticks m), interact [EvVerify] m).

(** *** Health report *)

Definition rateLimitInfo (m : Machine) : jsstring :=
  if Number_isFinite (RATE_LIMIT_PER_MINUTE cfg)
     && number_gt_zero (RATE_LIMIT_PER_MINUTE cfg)
  then numberToString rt (Finite (count (rateLimiterState m)))
       ++ js "/" ++ numberToString rt (RATE_LIMIT_PER_MINUTE cfg)
       ++ js " in current minute window"
  else js "disabled".

Definition allowListInfo : jsstring :=
  if allowListEnabled
  then js "enabled ("
       ++ numberToString rt (Finite (Z.of_nat (size (ALLOW_LIST cfg))))
       ++ js " entries)"
  else js "disabled".

Definition lastSendInfo (slot : option LastSendResult) : jsstring :=
  match slot with
  | Some (SendSuccess timestamp details) =>
      js "success at " ++ toISOString rt timestamp
      ++ match details with
         | Some ((_ :: _) as d) => js " (" ++ d ++ js ")"
         | _ => []
         end
  | Some (SendError timestamp error) =>
      js "error at " ++ toISOString rt timestamp ++ js ": " ++ error
  | None => js "no attempts yet"
  end.

Definition smtpStatus (probe : Settled unit) : jsstring :=
  match probe with
  | Resolved _ => js "ok"
  | Rejected e => js "error: " ++ errorText e
  end.

Definition buildHealthReport : M jsstring :=
  fun m =>
    let '(probe, m1) := emailService_verifyConnection m in
    (Return (join [LF]
               [js "SMTP: " ++ smtpStatus probe;
                js "Rate limit: " ++ rateLimitInfo m1;
                js "Allow list: " ++ allowListInfo;
                js "Last send: " ++ lastSendInfo (lastSendResult m1)]),
     m1).

(** *** The [CallToolRequestSchema] handler *)

Definition successText (normalized : NormalizedEmailArgs) : jsstring :=
  js "Email sent successfully to " ++ join (js ", ") (n_to normalized)
  ++ (match n_cc normalized with
      | [] => []
      | _ :: _ => js " (CC: " ++ join (js ", ") (n_cc normalized) ++ js ")"
      end)
  ++ (match n_bcc normalized with
      | [] => []
      | _ :: _ => js " (BCC: " ++ join (js ", ") (n_bcc normalized) ++ js ")"
      end)
  ++ js ".".

(** The [try] / [catch] around the transport call. *)
Definition deliver (normalized : NormalizedEmailArgs) : M CallToolResult :=
  fun m =>
    let '(result, m1) :=
      emailService_sendEmail
        (mkEmailMessage (join (js ", ") (n_to normalized))
           (n_subject normalized) (n_body normalized) (n_isHtml normalized)
           (formatRecipientField (n_cc normalized))
           (formatRecipientField (n_bcc normalized))) m in
    match result with
    | Resolved info =>
        (now <- dateNow ;;
         (fun m2 => (Return (mkResult (successText normalized)),
                     set_lastSendResult (SendSuccess now (messageId info)) m2))
        )%m m1
    | Rejected e =>
        let message := errorText e in
        (now <- dateNow ;;
         (fun m2 => (Throw (mkMcpError InternalError
                              (js "Failed to send email: " ++ message)),
                     set_lastSendResult (SendError now message) m2))
        )%m m1
    end.

Definition send_email (arguments : option (gmap jsstring JsValue))
    : M CallToolResult :=
  match arguments with
  | None => throw (mkMcpError InvalidParams (js "Invalid arguments"))
  | Some args =>
      (parsedArgs <- lift (parseSendEmailArgs args) ;;
       normalized <- lift (normalizeEmailArgs parsedArgs) ;;
       lift (enforceAllowList
               (n_to normalized ++ n_cc normalized ++ n_bcc normalized)) ;;;
       checkRateLimit ;;;
       deliver normalized)%m
  end.

Definition health_check : M CallToolResult :=
  (report <- buildHealthReport ;; ret (mkResult report))%m.

Definition callTool (request : CallToolRequest) : M CallToolResult :=
  if jsstring_eqb (name request) SEND_TOOL_NAME
  then send_email (arguments request)
  else if jsstring_eqb (name request) HEALTH_TOOL_NAME
  then health_check
  else throw (mkMcpError MethodNotFound
                (js "Unknown tool: " ++ name request)).

(** The server handling requests one after the other. *)
Fixpoint serve (requests : list CallToolRequest) (m : Machine)
    : list (Outcome CallToolResult) * Machine :=
  match requests with
  | [] => ([], m)
  | request :: rest =>
      let '(o, m1) := callTool request m in
      let '(os, m2) := serve rest m1 in
      (o :: os, m2)
  end.

End Server.

(** ** A concrete runtime, for running the model on examples

    ASCII lower-casing, decimal rendering of integers, the ISO 8601 UTC
    rendering of a time value, and zod's English messages. *)
Module Sample.

Definition asciiLower (s : jsstring) : jsstring :=
  List.map (fun c => if (65 <=? c)%N && (c <=? 90)%N then (c + 32)%N else c) s.

Definition decimal (z : Z) : jsstring :=
  js (NilZero.string_of_int (Z.to_int z)).

Definition showNumber (n : number) : jsstring :=
  match n with
  | Finite z => decimal z
  | NaN => js "NaN"
  | PosInfinity => js "Infinity"
  | NegInfinity => js "-Infinity"
  end.

(** [z] in decimal, padded with zeros to at least [width] digits. *)
Definition padded (width : nat) (z : Z) : jsstring :=
  let d := decimal z in
  repeat 48%N (width - length d) ++ d.

(** Year, month and day of the proleptic Gregorian calendar, from the
    number of days since 1970-01-01. *)
Definition civil (days : Z) : Z * Z * Z :=
  let z := days + 719468 in
  let era := z / 146097 in
  let doe := z - era * 146097 in
  let yoe := (doe - doe / 1460 + doe / 36524 - doe / 146096) / 365 in
  let doy := doe - (365 * yoe + yoe / 4 - yoe / 100) in
  let mp := (5 * doy + 2) / 153 in
  let d := doy - (153 * mp + 2) / 5 + 1 in
  let mo := if mp <? 10 then mp + 3 else mp - 9 in
  let y := yoe + era * 400 + (if mo <=? 2 then 1 else 0) in
  (y, mo, d).

Definition isoString (t : Z) : jsstring :=
  let days := t / 86400000 in
  let ms := t mod 86400000 in
  let '(y, mo, d) := civil days in
  (if (0 <=? y) && (y <=? 9999) then padded 4 y
   else (if y <? 0 then js "-" else js "+") ++ padded 6 (Z.abs y))
  ++ js "-" ++ padded 2 mo ++ js "-" ++ padded 2 d
  ++ js "T" ++ padded 2 (ms / 3600000)
  ++ js ":" ++ padded 2 (ms / 60000 mod 60)
  ++ js ":" ++ padded 2 (ms / 1000 mod 60)
  ++ js "." ++ padded 3 (ms mod 1000) ++ js "Z".

Definition typeName (v : option JsValue) : jsstring :=
  match v with
  | None => js "undefined"
  | Some JNull => js "null"
  | Some (JBoolean _) => js "boolean"
  | Some JNumber => js "number"
  | Some (JString _) => js "string"
  | Some JObject => js "object"
  end.

Definition invalidType (expected : ZodType) (v : option JsValue) : jsstring :=
  match v with
  | None => js "Required"
  | _ => js "Expected "
         ++ (match expected with
             | ZodString => js "string"
             | ZodBoolean => js "boolean"
             end)
         ++ js ", received " ++ typeName v
  end.

Definition tooBig (maximum : Z) : jsstring :=
  js "String must contain at most " ++ decimal maximum ++ js " character(s)".

Definition runtime : Runtime :=
  mkRuntime asciiLower showNumber isoString invalidType tooBig.

(** A transport that accepts every message, and a clock that advances one
    second per interaction. *)
Definition calmWorld : World :=
  mkWorld (fun n => 1700000000000 + 1000 * Z.of_nat n)
          (fun _ _ => Resolved (mkInfo (Some (js "<id-1@proton.me>"))))
          (fun _ => Resolved tt).

(** A transport that is down. *)
Definition downWorld : World :=
  mkWorld (fun n => 1700000000000 + 1000 * Z.of_nat n)
          (fun _ _ => Rejected (ErrorObject (js "connect ETIMEDOUT")))
          (fun _ => Rejected (ErrorObject (js "connect ETIMEDOUT"))).

Definition sender : jsstring := js "me@proton.me".

Definition machine0 : Machine :=
  mkMachine (mkRateLimiterState 1700000000000 0) None 0 [].

Definition sendRequest (to subject body : string) (cc : option string)
    : CallToolRequest :=
  mkRequest SEND_TOOL_NAME
    (Some (list_to_map
             ([(js "to", JString (js to)); (js "subject", JString (js subject));
               (js "body", JString (js body))]
              ++ match cc with
                 | Some c => [(js "cc", JString (js c))]
                 | None => []
                 end))).

Definition healthRequest : CallToolRequest :=
  mkRequest HEALTH_TOOL_NAME (Some ∅).

(** Limit of two sends a minute, no allow list. *)
Definition cfgOpen : Config := mkConfig sender (Finite 2) ∅.

(** The same with the allow list [a@x.com]. *)
Definition cfgAllow : Config :=
  mkConfig sender (Finite 2) (parseAllowList runtime (js "A@x.com")).

(** Three clock readings in the first three seconds, later ones after
    seventy seconds. *)
Definition windowWorld : World :=
  mkWorld (fun n => if (n <? 3)%nat then 1000 * Z.of_nat n else 70000)
          (fun _ _ => Resolved (mkInfo None))
          (fun _ => Resolved tt).

Definition machineAtZero : Machine :=
  mkMachine (mkRateLimiterState 0 0) None 0 [].

(** A machine whose window is full. *)
Definition machineFull : Machine :=
  mkMachine (mkRateLimiterState 1700000000000 2)
    (Some (SendError 1700000000500 (js "connect ETIMEDOUT"))) 0 [].

Definition plainRequest : CallToolRequest :=
  sendRequest "a@x.com, b@x.com" " hello " "text" None.

(** A cc value that tries to add a header. *)
Definition injectedCc : jsstring := js "c@x.com" ++ [CR; LF] ++ js "Bcc: d@x.com".

Definition injectedRequest : CallToolRequest :=
  mkRequest SEND_TOOL_NAME
    (Some (list_to_map
             [(js "to", JString (js "a@x.com"));
              (js "subject", JString (js "hello"));
              (js "body", JString (js "text"));
              (js "cc", JString injectedCc)])).

(** Both guards off. *)
Definition cfgOff : Config := mkConfig sender (Finite 0) ∅.

(** An allow-list variable that holds blanks and a comma only. *)
Definition cfgBlank : Config :=
  mkConfig sender (Finite 2) (parseAllowList runtime (js " , ")).

Definition plainArgs : gmap jsstring JsValue :=
  list_to_map
    [(js "to", JString (js "a@x.com, b@x.com"));
     (js "subject", JString (js " hello "));
     (js "body", JString (js "text"))].

(** An empty [to] and no [subject]. *)
Definition badArgs : gmap jsstring JsValue :=
  list_to_map [(js "to", JString []); (js "body", JString (js "text"))].

Definition blankSubjectArgs : gmap jsstring JsValue :=
  list_to_map
    [(js "to", JString (js "a@x.com"));
     (js "subject", JString (js "  "));
     (js "body", JString (js "text"))].

(** A machine after one accepted send. *)
Definition machineSent : Machine :=
  mkMachine (mkRateLimiterState 1700000000000 1)
    (Some (SendSuccess 1700000002000 (Some (js "<id-1@proton.me>")))) 3
    [].

(** A transport whose probe fails with a value that is not an [Error]. *)
Definition oddWorld : World :=
  mkWorld (fun n => 1700000000000 + 1000 * Z.of_nat n)
          (fun _ _ => Rejected (OtherValue (js "ECONNRESET")))
          (fun _ => Rejected (OtherValue (js "ECONNRESET"))).

End Sample.


(** ** Notions used to state the properties *)

(** What "leading and trailing whitespace removed" means: [r] is [s] without
    a prefix and a suffix made of whitespace only, and [r] neither starts nor
    ends with whitespace. *)
Definition startsClean (r : jsstring) : Prop :=
  match r with [] => True | c :: _ => isWhiteSpace c = false end.

Definition strippedOf (s r : jsstring) : Prop :=
  (exists pre suf, s = pre ++ r ++ suf
                   /\ Forall (fun c => isWhiteSpace c = true) pre
                   /\ Forall (fun c => isWhiteSpace c = true) suf)
  /\ startsClean r /\ startsClean (rev r).

(** The request carries a string under [key] that contains a CR or an LF. *)
Definition carriesLineBreak (args : gmap jsstring JsValue) (key : jsstring) : Prop :=
  exists s, args !! key = Some (JString s) /\ (CR ∈ s \/ LF ∈ s).

(** The recipient list in the words of the specification: go through the
    comma-separated pieces in order, trim each, and keep the trimmed piece
    unless it is empty. *)
Fixpoint recipientsOf (pieces : list jsstring) : list jsstring :=
  match pieces with
  | [] => []
  | p :: ps =>
      match trim p with
      | [] => recipientsOf ps
      | r => r :: recipientsOf ps
      end
  end.

(** A string made of whitespace and commas only. *)
Definition blankList (s : jsstring) : Prop :=
  Forall (fun c => isWhiteSpace c = true \/ c = COMMA) s.

(** The transport events of a run from [m] to [m']. *)
Definition eventsSince (m m' : Machine) : list Event :=
  drop (length (trace m)) (trace m').

Definition transportInvoked (m m' : Machine) : Prop :=
  exists opts, EvSendMail opts ∈ eventsSince m m'.

(** The age rank of a recognised TLS version string: the number of TLS
    versions released before it. *)
Definition tlsRank (v : jsstring) : option nat :=
  if jsstring_eqb v (js "TLSv1") then Some 0%nat
  else if jsstring_eqb v (js "TLSv1.1") then Some 1%nat
  else if jsstring_eqb v (js "TLSv1.2") then Some 2%nat
  else if jsstring_eqb v (js "TLSv1.3") then Some 3%nat
  else None.

(** [v] is recognised and exactly [k] recognised versions are older. *)
Definition olderVersions (v : jsstring) : list jsstring :=
  List.filter
    (fun u => match tlsRank u, tlsRank v with
              | Some a, Some b => (a <? b)%nat
              | _, _ => false
              end)
    allowedTlsVersions.

Definition secondOldest (v : jsstring) : Prop :=
  v ∈ allowedTlsVersions /\ length (olderVersions v) = 1%nat.

Definition thirdOldest (v : jsstring) : Prop :=
  v ∈ allowedTlsVersions /\ length (olderVersions v) = 2%nat.

(** The mail options the handler's message becomes in [EmailService]. *)
Definition transportOptions (cfg : Config) (normalized : NormalizedEmailArgs)
    : MailOptions :=
  mkMailOptions (PROTONMAIL_USERNAME cfg)
    (join (js ", ") (n_to normalized))
    (formatRecipientField (n_cc normalized))
    (formatRecipientField (n_bcc normalized))
    (n_subject normalized)
    (if n_isHtml normalized then None else Some (n_body normalized))
    (if n_isHtml normalized then Some (n_body normalized) else None).

(** The call is rejected by one of the stages in front of the transport:
    the argument check, schema validation, normalisation (header injection,
    empty [to]), the allow list, or the rate limiter. *)
Definition failsBeforeTransport (rt : Runtime) (cfg : Config) (world : World)
    (arguments : option (gmap jsstring JsValue)) (m : Machine) : Prop :=
  match arguments with
  | None => True
  | Some args =>
      match parseSendEmailArgs rt args with
      | Throw _ => True
      | Return parsed =>
          match normalizeEmailArgs parsed with
          | Throw _ => True
          | Return normalized =>
              match enforceAllowList rt cfg
                      (n_to normalized ++ n_cc normalized ++ n_bcc normalized) with
              | Throw _ => True
              | Return _ =>
                  match fst (checkRateLimit rt cfg world m) with
                  | Throw _ => True
                  | Return _ => False
                  end
              end
          end
      end
  end.

(** The four lines of a health report. *)
Definition reportLines (smtp rate allow last : jsstring) : jsstring :=
  join [LF]
    [js "SMTP: " ++ smtp; js "Rate limit: " ++ rate;
     js "Allow list: " ++ allow; js "Last send: " ++ last].

(** ** More of the module, and notions for its further properties *)

(** [TLS_MIN_VERSION]: [normalizeTlsVersion] applied to
    [process.env.PROTONMAIL_TLS_MIN_VERSION || "TLSv1.2"]; a variable that is
    unset or empty gives the default string. *)
Definition TLS_MIN_VERSION (env : option jsstring) : jsstring :=
  normalizeTlsVersion
    (match env with
     | Some ((_ :: _) as version) => version
     | _ => js "TLSv1.2"
     end).

(** An address as a normalised recipient list holds it: not empty, without
    surrounding whitespace, and without comma, CR or LF. *)
Definition cleanAddress (r : jsstring) : Prop :=
  r <> [] /\ trim r = r /\ (COMMA ∉ r) /\ (CR ∉ r) /\ (LF ∉ r).

(** The keys of [sendEmailSchema]. *)
Definition schemaKeys : list jsstring :=
  [js "to"; js "subject"; js "body"; js "isHtml"; js "cc"; js "bcc"].

(** A string of one to [maximum] code units. *)
Definition boundedString (v : option JsValue) (maximum : Z) : Prop :=
  exists s, v = Some (JString s) /\ 1 <= Z.of_nat (length s) <= maximum.

Definition optionalString (v : option JsValue) : Prop :=
  v = None \/ exists s, v = Some (JString s).

Definition optionalBoolean (v : option JsValue) : Prop :=
  v = None \/ exists b, v = Some (JBoolean b).

(** The field under [key] is as the schema wants it. *)
Definition fieldAccepted (args : gmap jsstring JsValue) (key : jsstring) : Prop :=
  if jsstring_eqb key (js "to") then boundedString (args !! key) 2048
  else if jsstring_eqb key (js "subject") then boundedString (args !! key) 512
  else if jsstring_eqb key (js "body") then boundedString (args !! key) 20000
  else if jsstring_eqb key (js "isHtml") then optionalBoolean (args !! key)
  else optionalString (args !! key).

(** What one field contributes to the issues of a refusal: issues under
    its key only, and none exactly when the field is acceptable. *)
Definition fieldReport (key : jsstring) (accepted : Prop)
    (issues : list ZodIssue) : Prop :=
  Forall (fun i => path i = [key]) issues /\ (issues = [] <-> accepted).

(** [r] is on the allow list written in the environment string [env]: its
    lower-cased form is not empty and is the lower-cased, trimmed form of one
    of the comma-separated entries. *)
Definition listedIn (rt : Runtime) (env r : jsstring) : Prop :=
  toLowerCase rt r <> []
  /\ exists entry, entry ∈ split COMMA env
                   /\ toLowerCase rt r = toLowerCase rt (trim entry).

(** The number of calls admitted among [n] calls of [checkRateLimit] in a
    row, and the machine after them. *)
Fixpoint admissions (rt : Runtime) (cfg : Config) (world : World)
    (n : nat) (m : Machine) : nat * Machine :=
  match n with
  | O => (O, m)
  | S n' =>
      match checkRateLimit rt cfg world m with
      | (Return _, m1) =>
          let '(k, m2) := admissions rt cfg world n' m1 in (S k, m2)
      | (Throw _, m1) => admissions rt cfg world n' m1
      end
  end.




(** * Properties *)

(** ** Strings *)

Lemma isLineBreak_true (c : N) : isLineBreak c = true <-> c = CR \/ c = LF.
Proof.
  unfold isLineBreak. rewrite orb_true_iff, !N.eqb_eq. reflexivity.
Qed.

Lemma lineBreak_found (s : jsstring) :
  HEADER_INJECTION_PATTERN_test s = true <-> CR ∈ s \/ LF ∈ s.
Proof.
  unfold HEADER_INJECTION_PATTERN_test. rewrite existsb_exists. split.
  - intros (c & Hin & Hc). apply list_elem_of_In in Hin.
    apply isLineBreak_true in Hc as [-> | ->]; auto.
  - intros [H | H]; [exists CR | exists LF];
      (split; [by apply list_elem_of_In | reflexivity]).
Qed.

Lemma lineBreak_free (s : jsstring) :
  HEADER_INJECTION_PATTERN_test s = false <-> (CR ∉ s) /\ (LF ∉ s).
Proof.
  rewrite <- not_true_iff_false, lineBreak_found. tauto.
Qed.

Lemma lineBreak_app (a b : jsstring) :
  HEADER_INJECTION_PATTERN_test (a ++ b)
  = HEADER_INJECTION_PATTERN_test a || HEADER_INJECTION_PATTERN_test b.
Proof. apply existsb_app. Qed.

Lemma split_not_nil (sep : N) (s : jsstring) : split sep s <> [].
Proof.
  destruct s as [| c s]; simpl; [discriminate |].
  destruct (N.eqb c sep); [discriminate |].
  destruct (split sep s); discriminate.
Qed.

Lemma join_cons_unit (sep : jsstring) (c : N) (p : jsstring) (ps : list jsstring) :
  join sep ((c :: p) :: ps) = c :: join sep (p :: ps).
Proof. destruct ps; reflexivity. Qed.

(** Joining the pieces of [split] with the separator gives the string back. *)
Lemma join_split (sep : N) (s : jsstring) : join [sep] (split sep s) = s.
Proof.
  induction s as [| c s IH]; simpl; [reflexivity |].
  destruct (N.eqb c sep) eqn:E.
  - apply N.eqb_eq in E. subst c.
    destruct (split sep s) eqn:Es; [by apply split_not_nil in Es |].
    simpl in *. by rewrite IH.
  - destruct (split sep s) eqn:Es; [by apply split_not_nil in Es |].
    rewrite join_cons_unit. by rewrite IH.
Qed.

Lemma split_pieces_free (sep : N) (s : jsstring) :
  Forall (fun p => sep ∉ p) (split sep s).
Proof.
  induction s as [| c s IH]; simpl.
  - repeat constructor. apply not_elem_of_nil.
  - destruct (N.eqb c sep) eqn:E.
    + constructor; [apply not_elem_of_nil | exact IH].
    + destruct (split sep s) as [| p ps]; inversion IH; subst.
      * repeat constructor. rewrite list_elem_of_singleton.
        intros ->. by rewrite N.eqb_refl in E.
      * constructor; [| assumption].
        rewrite elem_of_cons. intros [-> | H]; [by rewrite N.eqb_refl in E | auto].
Qed.

Lemma split_free (sep : N) (p : jsstring) : sep ∉ p -> split sep p = [p].
Proof.
  induction p as [| c p IH]; intros H; simpl; [reflexivity |].
  apply not_elem_of_cons in H as [Hc Hp].
  destruct (N.eqb c sep) eqn:E; [apply N.eqb_eq in E; congruence |].
  by rewrite IH.
Qed.

Lemma split_app_sep (sep : N) (p rest : jsstring) :
  sep ∉ p -> split sep (p ++ sep :: rest) = p :: split sep rest.
Proof.
  induction p as [| c p IH]; intros H; simpl.
  - by rewrite N.eqb_refl.
  - apply not_elem_of_cons in H as [Hc Hp].
    destruct (N.eqb c sep) eqn:E; [apply N.eqb_eq in E; congruence |].
    by rewrite IH.
Qed.

(** [split] finds exactly the pieces a string was joined from. *)
Lemma split_join (sep : N) (pieces : list jsstring) :
  pieces <> [] -> Forall (fun p => sep ∉ p) pieces ->
  split sep (join [sep] pieces) = pieces.
Proof.
  induction pieces as [| p ps IH]; intros Hne Hfree; [done |].
  inversion Hfree as [| ? ? Hp Hps]; subst.
  destruct ps as [| q qs].
  - simpl. by apply split_free.
  - change (join [sep] (p :: q :: qs)) with (p ++ sep :: join [sep] (q :: qs)).
    rewrite split_app_sep by assumption. f_equal. by apply IH.
Qed.

(** *** [trim] *)

Lemma trimStart_split (s : jsstring) :
  exists pre, s = pre ++ trimStart s
              /\ Forall (fun c => isWhiteSpace c = true) pre.
Proof.
  induction s as [| c s (pre & Hs & Hpre)]; simpl.
  - by exists [].
  - destruct (isWhiteSpace c) eqn:E.
    + exists (c :: pre). split; [simpl; congruence | by constructor].
    + by exists [].
Qed.

Lemma trimStart_clean (s : jsstring) : startsClean (trimStart s).
Proof.
  induction s as [| c s IH]; simpl; [exact I |].
  destruct (isWhiteSpace c) eqn:E; [exact IH | exact E].
Qed.

Lemma trimStart_of_clean (s : jsstring) : startsClean s -> trimStart s = s.
Proof. destruct s as [| c s]; simpl; [done | by intros ->]. Qed.

(** Stripping the end keeps a clean start. *)
Lemma trimEnd_keeps_start (s : jsstring) : startsClean s -> startsClean (trimEnd s).
Proof.
  unfold trimEnd. destruct s as [| c s]; [done |]. simpl. intros Hc.
  destruct (trimStart_split (rev s ++ [c])) as (pre & Hs & Hpre).
  destruct (trimStart (rev s ++ [c])) as [| d t] eqn:Et using rev_ind.
  - rewrite app_nil_r in Hs. subst pre.
    apply Forall_app in Hpre as [_ Hpre]. inversion Hpre; congruence.
  - clear IHt. rewrite app_assoc in Hs. apply app_inj_tail in Hs as [_ <-].
    rewrite rev_unit. exact Hc.
Qed.

Lemma trim_stripped (s : jsstring) : strippedOf s (trim s).
Proof.
  unfold trim. split; [| split].
  - destruct (trimStart_split s) as (pre & Hs & Hpre).
    destruct (trimStart_split (rev (trimStart s))) as (fus & Hr & Hfus).
    exists pre, (rev fus). split; [| split].
    + rewrite Hs at 1. f_equal. unfold trimEnd.
      rewrite <- rev_app_distr, <- Hr. by rewrite rev_involutive.
    + exact Hpre.
    + by apply Forall_rev.
  - apply trimEnd_keeps_start, trimStart_clean.
  - unfold trimEnd. rewrite rev_involutive. apply trimStart_clean.
Qed.

Lemma trim_idempotent (s : jsstring) : trim (trim s) = trim s.
Proof.
  destruct (trim_stripped s) as (_ & Hstart & Hend).
  unfold trim at 1. rewrite (trimStart_of_clean _ Hstart).
  unfold trimEnd at 1. rewrite (trimStart_of_clean _ Hend).
  apply rev_involutive.
Qed.

(** ** TLS version *)

Lemma allowed_recognised (v : jsstring) :
  List.existsb (jsstring_eqb v) allowedTlsVersions = true <-> v ∈ allowedTlsVersions.
Proof.
  rewrite existsb_exists. split.
  - intros (u & Hin & Hu). apply bool_decide_eq_true in Hu. subst u.
    by apply list_elem_of_In.
  - intros H. exists v. split; [by apply list_elem_of_In |].
    by apply bool_decide_eq_true.
Qed.

(** C8, as the specification states it, fails: an unrecognised string does
    not give the second-oldest recognised version. *)
Lemma tls_default_not_second_oldest :
  ~ (js "SSLv3" ∉ allowedTlsVersions ->
     secondOldest (normalizeTlsVersion (js "SSLv3"))).
Proof.
  intros H.
  assert (Hout : js "SSLv3" ∉ allowedTlsVersions).
  { intros Hin. apply allowed_recognised in Hin. vm_compute in Hin. discriminate. }
  destruct (H Hout) as [_ Hlen]. vm_compute in Hlen. discriminate.
Qed.

(** C8 (amended): a string that is not one of the four recognised version
    strings gives ["TLSv1.2"], the third-oldest (second-newest) of the four;
    the second-oldest is ["TLSv1.1"]. *)
Theorem tls_default_is_TLSv1_2 (version : jsstring) :
  version ∉ allowedTlsVersions ->
  normalizeTlsVersion version = js "TLSv1.2"
  /\ thirdOldest (normalizeTlsVersion version)
  /\ secondOldest (js "TLSv1.1")
  /\ normalizeTlsVersion version <> js "TLSv1.1".
Proof.
  intros Hout.
  assert (E : normalizeTlsVersion version = js "TLSv1.2").
  { unfold normalizeTlsVersion.
    destruct (existsb _ _) eqn:Ex; [| reflexivity].
    by apply allowed_recognised in Ex. }
  rewrite E. split; [reflexivity |]. split; [| split].
  - split; [| reflexivity]. apply allowed_recognised. reflexivity.
  - split; [| reflexivity]. apply allowed_recognised. reflexivity.
  - discriminate.
Qed.

Lemma tls_default_is_TLSv1_2_witness :
  normalizeTlsVersion (js "SSLv3") = js "TLSv1.2"
  /\ thirdOldest (normalizeTlsVersion (js "SSLv3"))
  /\ secondOldest (js "TLSv1.1")
  /\ normalizeTlsVersion (js "SSLv3") <> js "TLSv1.1".
Proof.
  apply (tls_default_is_TLSv1_2 (js "SSLv3")).
  intros Hin. apply allowed_recognised in Hin. vm_compute in Hin. discriminate.
Defined.

(** ** Recipient lists *)

Lemma recipientsOf_filter (pieces : list jsstring) :
  List.filter nonEmpty (List.map trim pieces) = recipientsOf pieces.
Proof.
  induction pieces as [| p ps IH]; simpl; [reflexivity |].
  destruct (trim p); simpl; by rewrite IH.
Qed.

Lemma join_lineBreak_free (pieces : list jsstring) :
  Forall (fun p => (CR ∉ p) /\ (LF ∉ p)) pieces ->
  HEADER_INJECTION_PATTERN_test (join [COMMA] pieces) = false.
Proof.
  induction pieces as [| p ps IH]; intros H; [reflexivity |].
  inversion H as [| ? ? Hp Hps]; subst.
  assert (Ep : HEADER_INJECTION_PATTERN_test p = false) by by apply lineBreak_free.
  destruct ps as [| q qs]; [exact Ep |].
  change (join [COMMA] (p :: q :: qs)) with (p ++ [COMMA] ++ join [COMMA] (q :: qs)).
  rewrite !lineBreak_app, Ep, (IH Hps). reflexivity.
Qed.

Lemma recipientsOf_entries (pieces : list jsstring) :
  Forall (fun r => r <> [] /\ trim r = r) (recipientsOf pieces).
Proof.
  induction pieces as [| p ps IH]; simpl; [constructor |].
  destruct (trim p) as [| c r] eqn:E; [exact IH |].
  constructor; [| exact IH]. split; [discriminate |].
  rewrite <- E. apply trim_idempotent.
Qed.

Lemma recipientsOf_sublist (pieces : list jsstring) :
  recipientsOf pieces `sublist_of` List.map trim pieces.
Proof.
  induction pieces as [| p ps IH]; simpl; [constructor |].
  destruct (trim p); [by apply sublist_cons | by apply sublist_skip].
Qed.

(** C3: an absent or empty list gives no recipients and no error; a
    non-empty list free of CR and LF, seen as pieces joined by commas, gives
    the trimmed pieces that are not empty, in their order and with repeats
    (every entry is non-empty and has no surrounding whitespace). *)
Theorem normalizeRecipientList_spec :
  (forall fieldName, normalizeRecipientList None fieldName = Return [])
  /\ (forall fieldName, normalizeRecipientList (Some []) fieldName = Return [])
  /\ (forall pieces fieldName,
        join [COMMA] pieces <> [] ->
        Forall (fun p => COMMA ∉ p) pieces ->
        Forall (fun p => (CR ∉ p) /\ (LF ∉ p)) pieces ->
        normalizeRecipientList (Some (join [COMMA] pieces)) fieldName
        = Return (recipientsOf pieces)
        /\ recipientsOf pieces `sublist_of` List.map trim pieces
        /\ Forall (fun r => r <> [] /\ trim r = r) (recipientsOf pieces))
  /\ normalizeRecipientList (Some (js "a@x.com, a@x.com, b@x.com")) (js "to")
     = Return [js "a@x.com"; js "a@x.com"; js "b@x.com"].
Proof.
  split; [reflexivity |]. split; [reflexivity |]. split; [| reflexivity].
  intros pieces fieldName Hne Hcomma Hbreak.
  split; [| split; [apply recipientsOf_sublist | apply recipientsOf_entries]].
  unfold normalizeRecipientList.
  destruct (join [COMMA] pieces) as [| c raw] eqn:E; [done |].
  rewrite <- E, (join_lineBreak_free _ Hbreak).
  rewrite split_join; [| by intros -> | assumption].
  by rewrite recipientsOf_filter.
Qed.

Lemma normalizeRecipientList_spec_witness :
  normalizeRecipientList (Some (js " a@x.com,, b@x.com ,a@x.com")) (js "cc")
  = Return [js "a@x.com"; js "b@x.com"; js "a@x.com"].
Proof.
  pose proof normalizeRecipientList_spec as (_ & _ & H & _).
  destruct (H [js " a@x.com"; []; js " b@x.com "; js "a@x.com"] (js "cc"))
    as (E & _).
  - vm_compute. discriminate.
  - repeat constructor; intros Hin; apply list_elem_of_In in Hin;
      vm_compute in Hin; intuition discriminate.
  - repeat constructor; intros Hin; apply list_elem_of_In in Hin;
      vm_compute in Hin; intuition discriminate.
  - exact E.
Defined.

(** ** The stages of [send_email] *)

Section Pipeline.

Variable rt : Runtime.
Variable cfg : Config.
Variable world : World.

Lemma zodRequiredString_inr key requiredMessage maximum v s :
  zodRequiredString rt key requiredMessage maximum v = inr s ->
  v = Some (JString s) /\ 1 <= Z.of_nat (length s) <= maximum.
Proof.
  unfold zodRequiredString. destruct v as [[| | | s0 |] |]; try discriminate.
  destruct (Z.of_nat (length s0) <? 1) eqn:E1; [discriminate |].
  destruct (maximum <? Z.of_nat (length s0)) eqn:E2; [discriminate |].
  simpl. intros [= ->]. split; [reflexivity | lia].
Qed.

Lemma zodOptionalString_inr key v o :
  zodOptionalString rt key v = inr o -> v = JString <$> o.
Proof.
  unfold zodOptionalString.
  destruct v as [[| | | s0 |] |]; try discriminate; by intros [= <-].
Qed.

(** A successful parse returns the strings found in the argument object. *)
Lemma parse_fields args parsed :
  sendEmailSchema_parse rt args = inr parsed ->
  args !! js "to" = Some (JString (raw_to parsed))
  /\ args !! js "subject" = Some (JString (raw_subject parsed))
  /\ args !! js "cc" = JString <$> raw_cc parsed
  /\ args !! js "bcc" = JString <$> raw_bcc parsed
  /\ 1 <= Z.of_nat (length (raw_to parsed)).
Proof.
  unfold sendEmailSchema_parse.
  destruct (zodRequiredString rt (js "to") _ _ _) as [| t] eqn:Et;
    [discriminate |].
  destruct (zodRequiredString rt (js "subject") _ _ _) as [| s] eqn:Es;
    [discriminate |].
  destruct (zodRequiredString rt (js "body") _ _ _) as [| b] eqn:Eb;
    [discriminate |].
  destruct (zodOptionalBoolean rt _ _) as [| h]; [discriminate |].
  destruct (zodOptionalString rt (js "cc") _) as [| c] eqn:Ec;
    [discriminate |].
  destruct (zodOptionalString rt (js "bcc") _) as [| bc] eqn:Ebc;
    [discriminate |].
  intros [= <-]. simpl.
  apply zodRequiredString_inr in Et as [-> Hlen].
  apply zodRequiredString_inr in Es as [-> _].
  apply zodOptionalString_inr in Ec as ->.
  apply zodOptionalString_inr in Ebc as ->.
  repeat split; try reflexivity. lia.
Qed.

Lemma parse_Throw args e :
  parseSendEmailArgs rt args = Throw e -> code e = InvalidParams.
Proof.
  unfold parseSendEmailArgs.
  destruct (sendEmailSchema_parse rt args); [| discriminate].
  by intros [= <-].
Qed.

Lemma parse_Return args parsed :
  parseSendEmailArgs rt args = Return parsed ->
  sendEmailSchema_parse rt args = inr parsed.
Proof.
  unfold parseSendEmailArgs.
  destruct (sendEmailSchema_parse rt args); [discriminate |].
  by intros [= <-].
Qed.

Lemma normalizeRecipientList_Throw rawValue fieldName e :
  normalizeRecipientList rawValue fieldName = Throw e ->
  code e = InvalidParams.
Proof.
  unfold normalizeRecipientList.
  destruct rawValue as [[| c raw] |]; try discriminate.
  destruct (HEADER_INJECTION_PATTERN_test _); [| discriminate].
  by intros [= <-].
Qed.

Lemma normalizeRecipientList_Return rawValue fieldName l :
  normalizeRecipientList rawValue fieldName = Return l ->
  forall raw, rawValue = Some raw -> HEADER_INJECTION_PATTERN_test raw = false.
Proof.
  unfold normalizeRecipientList. intros H raw ->.
  destruct raw as [| c raw]; [reflexivity |].
  by destruct (HEADER_INJECTION_PATTERN_test _).
Qed.

(** Every failure of [normalizeEmailArgs] is an invalid-parameters error. *)
Lemma normalizeEmailArgs_Throw parsed e :
  normalizeEmailArgs parsed = Throw e -> code e = InvalidParams.
Proof.
  unfold normalizeEmailArgs.
  destruct (normalizeRecipientList (Some _) _) as [toList |] eqn:Eto; simpl;
    [| intros [= <-]; by eapply normalizeRecipientList_Throw].
  destruct toList; [by intros [= <-] |].
  destruct (normalizeRecipientList (raw_cc _) _) eqn:Ecc; simpl;
    [| intros [= <-]; by eapply normalizeRecipientList_Throw].
  destruct (normalizeRecipientList (raw_bcc _) _) eqn:Ebcc; simpl;
    [| intros [= <-]; by eapply normalizeRecipientList_Throw].
  unfold sanitizeHeaderField.
  destruct (HEADER_INJECTION_PATTERN_test _); simpl; [| discriminate].
  by intros [= <-].
Qed.

(** What a successful normalisation says about its input and its result. *)
Lemma normalizeEmailArgs_Return parsed normalized :
  normalizeEmailArgs parsed = Return normalized ->
  normalizeRecipientList (Some (raw_to parsed)) (js "to")
  = Return (n_to normalized)
  /\ n_to normalized <> []
  /\ HEADER_INJECTION_PATTERN_test (raw_to parsed) = false
  /\ (forall s, raw_cc parsed = Some s -> HEADER_INJECTION_PATTERN_test s = false)
  /\ (forall s, raw_bcc parsed = Some s -> HEADER_INJECTION_PATTERN_test s = false)
  /\ HEADER_INJECTION_PATTERN_test (raw_subject parsed) = false
  /\ n_subject normalized = trim (raw_subject parsed).
Proof.
  unfold normalizeEmailArgs.
  destruct (normalizeRecipientList (Some _) _) as [toList |] eqn:Eto; simpl;
    [| discriminate].
  destruct toList as [| r toList]; [discriminate |].
  destruct (normalizeRecipientList (raw_cc _) _) eqn:Ecc; simpl;
    [| discriminate].
  destruct (normalizeRecipientList (raw_bcc _) _) eqn:Ebcc; simpl;
    [| discriminate].
  unfold sanitizeHeaderField.
  destruct (HEADER_INJECTION_PATTERN_test (raw_subject _)) eqn:Es; simpl;
    [discriminate |].
  intros [= <-]. simpl. repeat split; try done.
  - eapply normalizeRecipientList_Return; [exact Eto | reflexivity].
  - intros s Hs. eapply normalizeRecipientList_Return; [exact Ecc | exact Hs].
  - intros s Hs. eapply normalizeRecipientList_Return; [exact Ebcc | exact Hs].
Qed.

(** [send_email] stage by stage: the first three stages leave the machine
    as it is. *)
Lemma send_email_stages args m :
  send_email rt cfg world (Some args) m =
  match parseSendEmailArgs rt args with
  | Throw e => (Throw e, m)
  | Return parsed =>
      match normalizeEmailArgs parsed with
      | Throw e => (Throw e, m)
      | Return normalized =>
          match enforceAllowList rt cfg
                  (n_to normalized ++ n_cc normalized ++ n_bcc normalized) with
          | Throw e => (Throw e, m)
          | Return _ =>
              match checkRateLimit rt cfg world m with
              | (Throw e, m1) => (Throw e, m1)
              | (Return _, m1) => deliver cfg world normalized m1
              end
          end
      end
  end.
Proof.
  unfold send_email, bind, lift.
  destruct (parseSendEmailArgs rt args); [| reflexivity].
  destruct (normalizeEmailArgs a); [| reflexivity].
  destruct (enforceAllowList rt cfg _); reflexivity.
Qed.

Lemma callTool_send args m :
  callTool rt cfg world (mkRequest SEND_TOOL_NAME args) m
  = send_email rt cfg world args m.
Proof. reflexivity. Qed.

Lemma callTool_health args m :
  callTool rt cfg world (mkRequest HEALTH_TOOL_NAME args) m
  = health_check rt cfg world m.
Proof. reflexivity. Qed.

(** C1: a send_email request whose subject, to, cc or bcc string contains
    a CR or an LF fails with an invalid-parameters error, the machine (and
    with it the record of transport calls) untouched; a subject without CR
    and LF is sanitised to itself with leading and trailing whitespace
    removed. *)
Theorem header_injection_rejected :
  (forall args key m,
      key ∈ [js "subject"; js "to"; js "cc"; js "bcc"] ->
      carriesLineBreak args key ->
      exists e,
        callTool rt cfg world (mkRequest SEND_TOOL_NAME (Some args)) m
        = (Throw e, m)
        /\ code e = InvalidParams)
  /\ (forall subject fieldName,
        CR ∉ subject -> LF ∉ subject ->
        sanitizeHeaderField subject fieldName = Return (trim subject)
        /\ strippedOf subject (trim subject)).
Proof.
  split.
  - intros args key m Hkey (s & Hs & Hbreak).
    apply lineBreak_found in Hbreak.
    rewrite callTool_send, send_email_stages.
    destruct (parseSendEmailArgs rt args) as [parsed | e] eqn:Ep;
      [| exists e; split; [reflexivity | by eapply parse_Throw]].
    destruct (normalizeEmailArgs parsed) as [normalized | e] eqn:En;
      [| exists e; split; [reflexivity | by eapply normalizeEmailArgs_Throw]].
    exfalso.
    apply parse_Return, parse_fields in Ep as (Hto & Hsub & Hcc & Hbcc & _).
    apply normalizeEmailArgs_Return in En as (_ & _ & Cto & Ccc & Cbcc & Csub & _).
    rewrite !elem_of_cons in Hkey.
    destruct Hkey as [-> | [-> | [-> | [-> | Hnil]]]].
    + rewrite Hsub in Hs. injection Hs as <-. congruence.
    + rewrite Hto in Hs. injection Hs as <-. congruence.
    + rewrite Hcc in Hs. destruct (raw_cc parsed) as [c |] eqn:Ec;
        [| discriminate].
      injection Hs as <-. specialize (Ccc c eq_refl). congruence.
    + rewrite Hbcc in Hs. destruct (raw_bcc parsed) as [c |] eqn:Ec;
        [| discriminate].
      injection Hs as <-. specialize (Cbcc c eq_refl). congruence.
    + by apply not_elem_of_nil in Hnil.
  - intros subject fieldName Hcr Hlf. split; [| apply trim_stripped].
    unfold sanitizeHeaderField.
    by rewrite (proj2 (lineBreak_free subject) (conj Hcr Hlf)).
Qed.

(** *** Empty recipient list *)

Lemma trim_blank (p : jsstring) :
  Forall (fun c => isWhiteSpace c = true) p -> trim p = [].
Proof.
  intros H. unfold trim.
  assert (E : trimStart p = []).
  { induction H as [| c p Hc _ IH]; simpl; [reflexivity | by rewrite Hc]. }
  by rewrite E.
Qed.

Lemma split_blank (s : jsstring) :
  blankList s ->
  Forall (Forall (fun c => isWhiteSpace c = true)) (split COMMA s).
Proof.
  induction 1 as [| c s Hc _ IH]; simpl; [by repeat constructor |].
  destruct (N.eqb c COMMA) eqn:E; [by constructor |].
  destruct Hc as [Hc | ->]; [| by rewrite N.eqb_refl in E].
  destruct (split COMMA s) as [| p ps]; [by repeat constructor |].
  inversion IH; subst. constructor; [by constructor | assumption].
Qed.

Lemma blank_normalizes_empty (s fieldName : jsstring) (l : list jsstring) :
  blankList s -> normalizeRecipientList (Some s) fieldName = Return l -> l = [].
Proof.
  intros Hblank H.
  assert (Hl : l = [] \/ l = recipientsOf (split COMMA s)).
  { unfold normalizeRecipientList in H. rewrite recipientsOf_filter in H.
    destruct s as [| c s]; [left; congruence |].
    destruct (HEADER_INJECTION_PATTERN_test _); [discriminate |].
    right. congruence. }
  destruct Hl as [-> | ->]; [reflexivity |]. clear H.
  apply split_blank in Hblank.
  induction Hblank as [| p ps Hp _ IH]; simpl; [reflexivity |].
  by rewrite (trim_blank p Hp).
Qed.

(** C5: when the [to] string normalises to the empty sequence, and in
    particular when it is empty or made of whitespace and commas only, the
    call fails with an invalid-parameters error and the machine, with its
    record of transport calls, is left as it was. *)
Theorem empty_to_rejected args s m :
  args !! js "to" = Some (JString s) ->
  normalizeRecipientList (Some s) (js "to") = Return [] \/ blankList s ->
  exists e,
    callTool rt cfg world (mkRequest SEND_TOOL_NAME (Some args)) m
    = (Throw e, m)
    /\ code e = InvalidParams.
Proof.
  intros Hto Hempty.
  rewrite callTool_send, send_email_stages.
  destruct (parseSendEmailArgs rt args) as [parsed | e] eqn:Ep;
    [| exists e; split; [reflexivity | by eapply parse_Throw]].
  destruct (normalizeEmailArgs parsed) as [normalized | e] eqn:En;
    [| exists e; split; [reflexivity | by eapply normalizeEmailArgs_Throw]].
  exfalso.
  apply parse_Return, parse_fields in Ep as (Hto' & _).
  rewrite Hto in Hto'. injection Hto' as ->.
  apply normalizeEmailArgs_Return in En as (Hn & Hne & _).
  destruct Hempty as [Hempty | Hblank].
  - rewrite Hempty in Hn. injection Hn as Hn. congruence.
  - by apply Hne, (blank_normalizes_empty _ _ _ Hblank Hn).
Qed.

(** *** Allow list *)

Lemma allowListEnabled_iff : allowListEnabled cfg = true <-> ALLOW_LIST cfg <> ∅.
Proof.
  unfold allowListEnabled. rewrite bool_decide_eq_true. split.
  - intros H Hempty. rewrite Hempty, size_empty in H. lia.
  - intros Hne. destruct (size (ALLOW_LIST cfg)) eqn:E; [| lia].
    apply size_empty_inv, leibniz_equiv in E. contradiction.
Qed.

Lemma disallowed_filter (recipients : list jsstring) :
  List.filter (disallowedRecipient rt cfg) recipients
  = filter (fun r => toLowerCase rt r ∉ ALLOW_LIST cfg) recipients.
Proof.
  induction recipients as [| r rs IH]; simpl; [reflexivity |].
  rewrite filter_cons, IH. unfold disallowedRecipient.
  destruct (decide (toLowerCase rt r ∉ ALLOW_LIST cfg)) as [Hout | Hin].
  - by rewrite bool_decide_eq_false_2.
  - rewrite bool_decide_eq_true_2; [reflexivity |].
    by destruct (decide (toLowerCase rt r ∈ ALLOW_LIST cfg)).
Qed.

(** C4: with an empty allow set every recipient sequence passes.  With a
    non-empty one, the check fails exactly when some recipient's lower-cased
    form is not in the set; the error is an invalid-request error whose
    message lists the recipients not in the set, as they were written and in
    their order.  In the handler the check runs on to, cc and bcc put
    together, and its failure ends the call with the machine (and its record
    of transport calls) as it was. *)
Theorem allow_list_enforced :
  (forall recipients,
      ALLOW_LIST cfg = ∅ -> enforceAllowList rt cfg recipients = Return tt)
  /\ (forall recipients,
        ALLOW_LIST cfg <> ∅ ->
        ((exists e, enforceAllowList rt cfg recipients = Throw e)
         <-> exists r, r ∈ recipients /\ toLowerCase rt r ∉ ALLOW_LIST cfg)
        /\ forall e,
            enforceAllowList rt cfg recipients = Throw e ->
            code e = InvalidRequest
            /\ message e
               = js "Recipient(s) not permitted by allow list: "
                 ++ join (js ", ")
                      (filter (fun r => toLowerCase rt r ∉ ALLOW_LIST cfg)
                         recipients))
  /\ (forall args parsed normalized e m,
        parseSendEmailArgs rt args = Return parsed ->
        normalizeEmailArgs parsed = Return normalized ->
        enforceAllowList rt cfg
          (n_to normalized ++ n_cc normalized ++ n_bcc normalized) = Throw e ->
        callTool rt cfg world (mkRequest SEND_TOOL_NAME (Some args)) m
        = (Throw e, m)).
Proof.
  split; [| split].
  - intros recipients Hempty. unfold enforceAllowList.
    destruct (allowListEnabled cfg) eqn:E; [| reflexivity].
    by apply allowListEnabled_iff in E.
  - intros recipients Hne. apply allowListEnabled_iff in Hne.
    unfold enforceAllowList. rewrite Hne. simpl. rewrite disallowed_filter.
    destruct (filter _ recipients) as [| d ds] eqn:Ef.
    + split; [| discriminate]. split; [intros [e He]; discriminate |].
      intros (r & Hin & Hout). exfalso.
      by apply (filter_nil_not_elem_of _ _ r Ef Hout).
    + split; [| by intros e [= <-]]. split; [| by eexists].
      intros _. exists d.
      assert (Hd : d ∈ filter (fun r => toLowerCase rt r ∉ ALLOW_LIST cfg)
                         recipients) by (rewrite Ef; left).
      apply list_elem_of_filter in Hd. tauto.
  - intros args parsed normalized e m Hp Hn He.
    by rewrite callTool_send, send_email_stages, Hp, Hn, He.
Qed.

(** *** Rate limiter *)

(** C2: with a finite positive limit [L], a call first starts a new window
    (count 0, start now) when 60000 ms or more have passed since the start
    of the window, then fails with the rate-limit error naming [L] when the
    count has reached [L], and otherwise adds one to the count and admits;
    so with [L = 2] and an empty window, two calls are admitted, the third
    fails, and a call after the window has passed is admitted with the
    count at 1.  With a limit that is not finite or not positive, every
    call is admitted and the machine is left as it was. *)
Theorem rate_limiter_admit :
  (forall L m,
      RATE_LIMIT_PER_MINUTE cfg = Finite L -> 0 < L ->
      let now := clock world (ticks m) in
      let rolled :=
        if 60000 <=? now - windowStart (rateLimiterState m)
        then mkRateLimiterState now 0
        else rateLimiterState m in
      checkRateLimit rt cfg world m
      = if L <=? count rolled
        then (Throw (mkMcpError InvalidRequest
                       (js "Rate limit exceeded ("
                        ++ numberToString rt (Finite L)
                        ++ js " emails per minute)")),
              set_rateLimiterState rolled (interact [] m))
        else (Return tt,
              set_rateLimiterState
                (mkRateLimiterState (windowStart rolled) (count rolled + 1))
                (interact [] m)))
  /\ (forall m,
        match RATE_LIMIT_PER_MINUTE cfg with
        | Finite L => L <= 0
        | _ => True
        end ->
        checkRateLimit rt cfg world m = (Return tt, m))
  /\ (forall m,
        RATE_LIMIT_PER_MINUTE cfg = Finite 2 ->
        count (rateLimiterState m) = 0 ->
        (forall i, (i < 3)%nat ->
                   clock world (ticks m + i)
                   - windowStart (rateLimiterState m) < 60000) ->
        60000 <= clock world (ticks m + 3) - windowStart (rateLimiterState m) ->
        exists m1 m2 m3 m4,
          checkRateLimit rt cfg world m = (Return tt, m1)
          /\ checkRateLimit rt cfg world m1 = (Return tt, m2)
          /\ checkRateLimit rt cfg world m2 = (Throw (rateLimitError rt cfg), m3)
          /\ checkRateLimit rt cfg world m3 = (Return tt, m4)
          /\ rateLimiterState m4
             = mkRateLimiterState (clock world (ticks m + 3)) 1).
Proof.
  assert (Hstep : forall L m,
    RATE_LIMIT_PER_MINUTE cfg = Finite L -> 0 < L ->
    checkRateLimit rt cfg world m
    = let rolled :=
        if 60000 <=? clock world (ticks m) - windowStart (rateLimiterState m)
        then mkRateLimiterState (clock world (ticks m)) 0
        else rateLimiterState m in
      if L <=? count rolled
      then (Throw (rateLimitError rt cfg),
            set_rateLimiterState rolled (interact [] m))
      else (Return tt,
            set_rateLimiterState
              (mkRateLimiterState (windowStart rolled) (count rolled + 1))
              (interact [] m))).
  { intros L m HL Hpos. unfold checkRateLimit, bind, dateNow. rewrite HL. simpl.
    replace (L <=? 0) with false by (symmetry; apply Z.leb_gt; lia).
    destruct (60000 <=? _ - _); simpl.
    - by destruct (L <=? 0).
    - replace (set_rateLimiterState (rateLimiterState m) (interact [] m))
        with (interact [] m) by (by destruct m).
      by destruct (L <=? count (rateLimiterState m)). }
  split; [| split].
  - intros L m HL Hpos. rewrite (Hstep L m HL Hpos).
    unfold rateLimitError. by rewrite HL.
  - intros m Hoff. unfold checkRateLimit.
    destruct (RATE_LIMIT_PER_MINUTE cfg) as [L | | |]; simpl; try reflexivity.
    by replace (L <=? 0) with true by (symmetry; apply Z.leb_le; lia).
  - intros m HL Hcount Hin Hout.
    destruct m as [[w0 c0] slot t tr]. simpl in *. subst c0.
    pose proof (Hin 0%nat ltac:(lia)) as H0.
    pose proof (Hin 1%nat ltac:(lia)) as H1.
    pose proof (Hin 2%nat ltac:(lia)) as H2.
    replace (t + 0)%nat with t in H0 by lia.
    replace (t + 1)%nat with (S t) in H1 by lia.
    replace (t + 2)%nat with (S (S t)) in H2 by lia.
    replace (t + 3)%nat with (S (S (S t))) in * by lia.
    do 4 eexists.
    split; [| split; [| split; [| split]]].
    + rewrite (Hstep 2 _ HL ltac:(lia)). simpl.
      replace (60000 <=? clock world t - w0) with false
        by (symmetry; apply Z.leb_gt; lia).
      simpl. reflexivity.
    + rewrite (Hstep 2 _ HL ltac:(lia)). simpl.
      replace (60000 <=? clock world (S t) - w0) with false
        by (symmetry; apply Z.leb_gt; lia).
      simpl. reflexivity.
    + rewrite (Hstep 2 _ HL ltac:(lia)). simpl.
      replace (60000 <=? clock world (S (S t)) - w0) with false
        by (symmetry; apply Z.leb_gt; lia).
      simpl. reflexivity.
    + rewrite (Hstep 2 _ HL ltac:(lia)). simpl.
      replace (60000 <=? clock world (S (S (S t))) - w0) with true
        by (symmetry; apply Z.leb_le; lia).
      simpl. reflexivity.
    + reflexivity.
Qed.

(** *** What a call does to the machine *)

Lemma eventsSince_app m m' evs :
  trace m' = trace m ++ evs -> eventsSince m m' = evs.
Proof. unfold eventsSince. intros ->. apply drop_app_length. Qed.

Lemma checkRateLimit_frame m o m' :
  checkRateLimit rt cfg world m = (o, m') ->
  trace m' = trace m /\ lastSendResult m' = lastSendResult m.
Proof.
  unfold checkRateLimit, bind, dateNow, ret.
  destruct (negb _ || _); [by intros [= <- <-] |].
  destruct (60000 <=? _); simpl;
    destruct (ge_number _ _); intros [= <- <-]; simpl;
    by rewrite app_nil_r.
Qed.

Lemma deliver_run normalized m :
  deliver cfg world normalized m
  = let opts := transportOptions cfg normalized in
    let t := clock world (S (ticks m)) in
    match sendMail world (ticks m) opts with
    | Resolved info =>
        (Return (mkResult (successText normalized)),
         mkMachine (rateLimiterState m)
           (Some (SendSuccess t (messageId info)))
           (S (S (ticks m))) (trace m ++ [EvSendMail opts]))
    | Rejected e =>
        (Throw (mkMcpError InternalError
                  (js "Failed to send email: " ++ errorText e)),
         mkMachine (rateLimiterState m)
           (Some (SendError t (errorText e)))
           (S (S (ticks m))) (trace m ++ [EvSendMail opts]))
    end.
Proof.
  unfold deliver, emailService_sendEmail, transportOptions, bind, dateNow.
  simpl. unfold set_lastSendResult, interact.
  destruct (sendMail world (ticks m) _); simpl; by rewrite app_nil_r.
Qed.

(** A [send_email] call either stops in front of the transport, with an
    error and without touching the slot or the transport, or reaches
    [deliver] from a machine with the same slot and trace. *)
Lemma send_email_cases arguments m o m' :
  send_email rt cfg world arguments m = (o, m') ->
  (failsBeforeTransport rt cfg world arguments m
   /\ (exists e, o = Throw e)
   /\ trace m' = trace m /\ lastSendResult m' = lastSendResult m)
  \/ (~ failsBeforeTransport rt cfg world arguments m
      /\ exists normalized m1,
          deliver cfg world normalized m1 = (o, m')
          /\ trace m1 = trace m /\ lastSendResult m1 = lastSendResult m).
Proof.
  destruct arguments as [args |];
    [| intros [= <- <-]; left; simpl; eauto].
  rewrite send_email_stages. unfold failsBeforeTransport.
  destruct (parseSendEmailArgs rt args) as [parsed | e];
    [| intros [= <- <-]; left; eauto].
  destruct (normalizeEmailArgs parsed) as [normalized | e];
    [| intros [= <- <-]; left; eauto].
  destruct (enforceAllowList rt cfg _) as [[] | e];
    [| intros [= <- <-]; left; eauto].
  destruct (checkRateLimit rt cfg world m) as [[[] | e] m1] eqn:Er; simpl.
  - intros Hd. right. split; [tauto |]. exists normalized, m1.
    apply checkRateLimit_frame in Er as [? ?]. auto.
  - intros [= <- <-]. left. apply checkRateLimit_frame in Er as [? ?]. eauto.
Qed.

Lemma health_check_run m :
  health_check rt cfg world m
  = (Return (mkResult
               (reportLines (smtpStatus (verify world (ticks m)))
                  (rateLimitInfo rt cfg m) (allowListInfo rt cfg)
                  (lastSendInfo rt (lastSendResult m)))),
     interact [EvVerify] m).
Proof. reflexivity. Qed.




(** *** Health check *)

(** C7: health_check never raises an error.  Every health_check call
    returns a report, after one connectivity probe and nothing else, and the
    report is spelled out here line by line.  When the probe fails, the
    first line reads ["SMTP: error: "] followed by the failure's message (the
    [message] of an [Error], or the string rendering of any other thrown
    value) and the three other sections (limiter occupancy, allow-list
    status, last send) are there exactly as for a successful probe.  In any
    sequence of requests, whatever the other calls did, the answer to every
    health_check is a report and never an error. *)
Theorem health_check_never_fails :
  (forall arguments m,
      callTool rt cfg world (mkRequest HEALTH_TOOL_NAME arguments) m
      = (Return
           (mkResult
              (js "SMTP: "
               ++ match verify world (ticks m) with
                  | Resolved _ => js "ok"
                  | Rejected (ErrorObject msg) => js "error: " ++ msg
                  | Rejected (OtherValue rendering) => js "error: " ++ rendering
                  end
               ++ [LF] ++ js "Rate limit: "
               ++ match RATE_LIMIT_PER_MINUTE cfg with
                  | Finite L =>
                      if 0 <? L
                      then numberToString rt (Finite (count (rateLimiterState m)))
                           ++ js "/" ++ numberToString rt (Finite L)
                           ++ js " in current minute window"
                      else js "disabled"
                  | _ => js "disabled"
                  end
               ++ [LF] ++ js "Allow list: "
               ++ (if decide (ALLOW_LIST cfg = ∅)
                   then js "disabled"
                   else js "enabled ("
                        ++ numberToString rt
                             (Finite (Z.of_nat (size (ALLOW_LIST cfg))))
                        ++ js " entries)")
               ++ [LF] ++ js "Last send: "
               ++ match lastSendResult m with
                  | None => js "no attempts yet"
                  | Some (SendSuccess t None) | Some (SendSuccess t (Some [])) =>
                      js "success at " ++ toISOString rt t
                  | Some (SendSuccess t (Some (c :: d))) =>
                      js "success at " ++ toISOString rt t
                      ++ js " (" ++ (c :: d) ++ js ")"
                  | Some (SendError t err) =>
                      js "error at " ++ toISOString rt t ++ js ": " ++ err
                  end)),
         mkMachine (rateLimiterState m) (lastSendResult m) (S (ticks m))
           (trace m ++ [EvVerify])))
  /\ (forall requests m os m' i request,
        serve rt cfg world requests m = (os, m') ->
        requests !! i = Some request ->
        name request = HEALTH_TOOL_NAME ->
        exists report, os !! i = Some (Return (mkResult report))).
Proof.
  split.
  - intros arguments m. rewrite callTool_health, health_check_run.
    unfold reportLines, interact. cbn [join]. rewrite <- !app_assoc.
    assert (Hsmtp : smtpStatus (verify world (ticks m))
                    = match verify world (ticks m) with
                      | Resolved _ => js "ok"
                      | Rejected (ErrorObject msg) => js "error: " ++ msg
                      | Rejected (OtherValue rendering) =>
                          js "error: " ++ rendering
                      end)
      by (by destruct (verify world (ticks m)) as [| []]).
    assert (Hrate : rateLimitInfo rt cfg m
                    = match RATE_LIMIT_PER_MINUTE cfg with
                      | Finite L =>
                          if 0 <? L
                          then numberToString rt
                                 (Finite (count (rateLimiterState m)))
                               ++ js "/" ++ numberToString rt (Finite L)
                               ++ js " in current minute window"
                          else js "disabled"
                      | _ => js "disabled"
                      end).
    { unfold rateLimitInfo.
      by destruct (RATE_LIMIT_PER_MINUTE cfg) as [L | | |]. }
    assert (Hallow : allowListInfo rt cfg
                     = if decide (ALLOW_LIST cfg = ∅)
                       then js "disabled"
                       else js "enabled ("
                            ++ numberToString rt
                                 (Finite (Z.of_nat (size (ALLOW_LIST cfg))))
                            ++ js " entries)").
    { unfold allowListInfo.
      destruct (decide (ALLOW_LIST cfg = ∅)) as [Hempty | Hne].
      - destruct (allowListEnabled cfg) eqn:E; [| reflexivity].
        by apply allowListEnabled_iff in E.
      - by rewrite (proj2 allowListEnabled_iff Hne). }
    assert (Hlast : lastSendInfo rt (lastSendResult m)
                    = match lastSendResult m with
                      | None => js "no attempts yet"
                      | Some (SendSuccess t None)
                      | Some (SendSuccess t (Some [])) =>
                          js "success at " ++ toISOString rt t
                      | Some (SendSuccess t (Some (c :: d))) =>
                          js "success at " ++ toISOString rt t
                          ++ js " (" ++ (c :: d) ++ js ")"
                      | Some (SendError t err) =>
                          js "error at " ++ toISOString rt t ++ js ": " ++ err
                      end).
    { unfold lastSendInfo.
      destruct (lastSendResult m) as [[t [[| c d] |] | t err] |];
        try reflexivity.
      all: by rewrite app_nil_r. }
    by rewrite Hsmtp, Hrate, Hallow, Hlast.
  - induction requests as [| first rest IH]; intros m os m' i request; simpl.
    + intros _ Hi. by rewrite lookup_nil in Hi.
    + destruct (callTool rt cfg world first m) as [o m1] eqn:E1.
      destruct (serve rt cfg world rest m1) as [os' m2] eqn:E2.
      intros [= <- <-] Hi Hname. destruct i as [| i]; simpl in *.
      * injection Hi as ->. destruct request as [nm args]. simpl in Hname.
        subst nm. rewrite callTool_health, health_check_run in E1.
        injection E1 as <- _. by eexists.
      * by eapply IH.
Qed.

(** C9: however many health_check calls are handled in a row, the rate
    limiter's window start and count and the last-outcome slot stay as they
    were. *)
Theorem health_check_keeps_state requests : forall m os m',
  Forall (fun request => name request = HEALTH_TOOL_NAME) requests ->
  serve rt cfg world requests m = (os, m') ->
  rateLimiterState m' = rateLimiterState m
  /\ lastSendResult m' = lastSendResult m.
Proof.
  induction requests as [| [nm args] rest IH]; intros m os m' Hall; simpl.
  - by intros [= <- <-].
  - inversion Hall as [| ? ? Hname Hrest]; subst. simpl in Hname. subst nm.
    rewrite callTool_health, health_check_run.
    destruct (serve rt cfg world rest _) as [os' m2] eqn:E2.
    intros [= <- <-]. by apply (IH _ _ _ Hrest) in E2 as [-> ->].
Qed.

(** *** The last-outcome slot *)

(** C10: a send_email call changes the last-outcome slot only if it
    invokes the transport.  A call rejected in front of the transport
    (argument check, schema validation, header injection or empty [to],
    allow list, rate limit) ends in an error, invokes no transport, and
    leaves the slot, and so the last-send line of the health report, as
    they were. *)
Theorem slot_written_only_on_transport arguments m o m' :
  callTool rt cfg world (mkRequest SEND_TOOL_NAME arguments) m = (o, m') ->
  (lastSendResult m' <> lastSendResult m -> transportInvoked m m')
  /\ (failsBeforeTransport rt cfg world arguments m ->
      (exists e, o = Throw e)
      /\ ~ transportInvoked m m'
      /\ lastSendResult m' = lastSendResult m
      /\ lastSendInfo rt (lastSendResult m')
         = lastSendInfo rt (lastSendResult m)).
Proof.
  rewrite callTool_send. intros H.
  apply send_email_cases in H
    as [(Hf & He & Ht & Hs) | (Hnf & n & m1 & Hd & Ht & Hs)].
  - assert (Hquiet : ~ transportInvoked m m').
    { intros [opts Hin]. rewrite (eventsSince_app m m' []) in Hin.
      - by apply not_elem_of_nil in Hin.
      - by rewrite app_nil_r. }
    split; [congruence |]. intros _. by rewrite Hs.
  - split; [| tauto]. intros _.
    rewrite deliver_run in Hd. simpl in Hd.
    exists (transportOptions cfg n).
    rewrite (eventsSince_app m m' [EvSendMail (transportOptions cfg n)]);
      [left |].
    destruct (sendMail world _ _); injection Hd as <- <-; simpl;
      by rewrite Ht.
Qed.

(** *** Outcome of a send *)


End Pipeline.

(** ** The properties on concrete runs *)

Lemma header_injection_rejected_witness :
  (exists e,
      callTool Sample.runtime Sample.cfgOpen Sample.calmWorld
        Sample.injectedRequest Sample.machine0
      = (Throw e, Sample.machine0)
      /\ code e = InvalidParams)
  /\ sanitizeHeaderField (js "  Fwd: hello ") (js "subject")
     = Return (js "Fwd: hello").
Proof.
  pose proof (header_injection_rejected Sample.runtime Sample.cfgOpen
                Sample.calmWorld) as [Hreq Hsubject].
  split.
  - refine (Hreq _ (js "cc") Sample.machine0 _ _).
    + apply list_elem_of_In. vm_compute. tauto.
    + exists Sample.injectedCc. split; [vm_compute; reflexivity |].
      left. apply list_elem_of_In. vm_compute. tauto.
  - refine (proj1 (Hsubject (js "  Fwd: hello ") (js "subject") _ _));
      intros Hin; apply list_elem_of_In in Hin; vm_compute in Hin;
      intuition discriminate.
Defined.

Lemma rate_limiter_admit_witness :
  exists m1 m2 m3 m4,
    checkRateLimit Sample.runtime Sample.cfgOpen Sample.windowWorld
      Sample.machineAtZero = (Return tt, m1)
    /\ checkRateLimit Sample.runtime Sample.cfgOpen Sample.windowWorld m1
       = (Return tt, m2)
    /\ checkRateLimit Sample.runtime Sample.cfgOpen Sample.windowWorld m2
       = (Throw (rateLimitError Sample.runtime Sample.cfgOpen), m3)
    /\ checkRateLimit Sample.runtime Sample.cfgOpen Sample.windowWorld m3
       = (Return tt, m4)
    /\ rateLimiterState m4 = mkRateLimiterState 70000 1.
Proof.
  pose proof (rate_limiter_admit Sample.runtime Sample.cfgOpen
                Sample.windowWorld) as (_ & _ & Hscenario).
  apply (Hscenario Sample.machineAtZero).
  - reflexivity.
  - reflexivity.
  - intros i Hi. destruct i as [| [| [| i]]]; [reflexivity .. | lia].
  - vm_compute. discriminate.
Defined.

Lemma empty_to_rejected_witness :
  exists e,
    callTool Sample.runtime Sample.cfgOpen Sample.calmWorld
      (Sample.sendRequest " , ," "hello" "text" None) Sample.machine0
    = (Throw e, Sample.machine0)
    /\ code e = InvalidParams.
Proof.
  apply (empty_to_rejected Sample.runtime Sample.cfgOpen Sample.calmWorld
           _ (js " , ,")).
  - vm_compute. reflexivity.
  - right. unfold blankList. vm_compute.
    repeat (constructor; [first [left; reflexivity | right; reflexivity] |]).
    constructor.
Defined.

Lemma allow_list_enforced_witness :
  callTool Sample.runtime Sample.cfgAllow Sample.calmWorld
    (Sample.sendRequest "a@x.com" "hello" "text" (Some "b@x.com"%string))
    Sample.machine0
  = (Throw (mkMcpError InvalidRequest
              (js "Recipient(s) not permitted by allow list: b@x.com")),
     Sample.machine0).
Proof.
  pose proof (allow_list_enforced Sample.runtime Sample.cfgAllow
                Sample.calmWorld) as (_ & _ & Hcall).
  eapply Hcall.
  - vm_compute. reflexivity.
  - vm_compute. reflexivity.
  - vm_compute. reflexivity.
Defined.


Lemma health_check_never_fails_witness :
  fst (callTool Sample.runtime Sample.cfgAllow Sample.downWorld
         (mkRequest HEALTH_TOOL_NAME (Some ∅)) Sample.machineFull)
  = Return (mkResult
              (js "SMTP: error: connect ETIMEDOUT" ++ [LF]
               ++ js "Rate limit: 2/2 in current minute window" ++ [LF]
               ++ js "Allow list: enabled (1 entries)" ++ [LF]
               ++ js "Last send: error at 2023-11-14T22:13:20.500Z: connect ETIMEDOUT"))
  /\ fst (callTool Sample.runtime Sample.cfgOff Sample.calmWorld
            (mkRequest HEALTH_TOOL_NAME None) Sample.machineSent)
     = Return (mkResult
                 (js "SMTP: ok" ++ [LF]
                  ++ js "Rate limit: disabled" ++ [LF]
                  ++ js "Allow list: disabled" ++ [LF]
                  ++ js "Last send: success at 2023-11-14T22:13:22.000Z (<id-1@proton.me>)"))
  /\ fst (callTool Sample.runtime Sample.cfgOpen Sample.oddWorld
            (mkRequest HEALTH_TOOL_NAME (Some ∅)) Sample.machine0)
     = Return (mkResult
                 (js "SMTP: error: ECONNRESET" ++ [LF]
                  ++ js "Rate limit: 0/2 in current minute window" ++ [LF]
                  ++ js "Allow list: disabled" ++ [LF]
                  ++ js "Last send: no attempts yet"))
  /\ exists report,
      fst (serve Sample.runtime Sample.cfgOpen Sample.downWorld
             [Sample.plainRequest; Sample.healthRequest; Sample.injectedRequest]
             Sample.machine0) !! 1%nat
      = Some (Return (mkResult report)).
Proof.
  split; [| split; [| split]].
  - rewrite (proj1 (health_check_never_fails Sample.runtime Sample.cfgAllow
                      Sample.downWorld) (Some ∅) Sample.machineFull).
    vm_compute. reflexivity.
  - rewrite (proj1 (health_check_never_fails Sample.runtime Sample.cfgOff
                      Sample.calmWorld) None Sample.machineSent).
    vm_compute. reflexivity.
  - rewrite (proj1 (health_check_never_fails Sample.runtime Sample.cfgOpen
                      Sample.oddWorld) (Some ∅) Sample.machine0).
    vm_compute. reflexivity.
  - apply (proj2 (health_check_never_fails Sample.runtime Sample.cfgOpen
                    Sample.downWorld)
             [Sample.plainRequest; Sample.healthRequest; Sample.injectedRequest]
             Sample.machine0 _
             (snd (serve Sample.runtime Sample.cfgOpen Sample.downWorld
                     [Sample.plainRequest; Sample.healthRequest;
                      Sample.injectedRequest] Sample.machine0))
             1%nat Sample.healthRequest).
    + apply surjective_pairing.
    + reflexivity.
    + reflexivity.
Defined.

Lemma health_check_keeps_state_witness :
  rateLimiterState
    (snd (serve Sample.runtime Sample.cfgOpen Sample.downWorld
            [Sample.healthRequest; Sample.healthRequest; Sample.healthRequest]
            Sample.machineFull))
  = rateLimiterState Sample.machineFull
  /\ lastSendResult
       (snd (serve Sample.runtime Sample.cfgOpen Sample.downWorld
               [Sample.healthRequest; Sample.healthRequest; Sample.healthRequest]
               Sample.machineFull))
     = lastSendResult Sample.machineFull.
Proof.
  apply (health_check_keeps_state Sample.runtime Sample.cfgOpen
           Sample.downWorld
           [Sample.healthRequest; Sample.healthRequest; Sample.healthRequest]
           Sample.machineFull
           (fst (serve Sample.runtime Sample.cfgOpen Sample.downWorld
                   [Sample.healthRequest; Sample.healthRequest;
                    Sample.healthRequest] Sample.machineFull))).
  - repeat constructor.
  - apply surjective_pairing.
Defined.

Lemma slot_written_only_on_transport_witness :
  fst (callTool Sample.runtime Sample.cfgOpen Sample.calmWorld
         Sample.plainRequest Sample.machineFull)
  = Throw (mkMcpError InvalidRequest
             (js "Rate limit exceeded (2 emails per minute)"))
  /\ lastSendResult
       (snd (callTool Sample.runtime Sample.cfgOpen Sample.calmWorld
               Sample.plainRequest Sample.machineFull))
     = Some (SendError 1700000000500 (js "connect ETIMEDOUT")).
Proof.
  split; [vm_compute; reflexivity |].
  refine (proj1 (proj2 (proj2
    (proj2 (slot_written_only_on_transport Sample.runtime Sample.cfgOpen
              Sample.calmWorld _ Sample.machineFull _ _
              (surjective_pairing _)) _)))).
  vm_compute. exact I.
Defined.

(** ** The model on further inputs *)

Example trim_sample : trim (js "  a b  ") = js "a b".
Proof. reflexivity. Qed.

Example split_sample :
  split COMMA (js "a,,b,") = [js "a"; []; js "b"; []].
Proof. reflexivity. Qed.

Example allow_list_sample :
  parseAllowList Sample.runtime (js " A@x.com , ,b@X.com,")
  = {[ js "a@x.com"; js "b@x.com" ]}.
Proof. vm_compute. reflexivity. Qed.

Example iso_sample :
  Sample.isoString 951782400000 = js "2000-02-29T00:00:00.000Z".
Proof. reflexivity. Qed.

Example last_send_sample :
  lastSendInfo Sample.runtime (Some (SendSuccess 0 (Some (js "<id-1@proton.me>"))))
  = js "success at 1970-01-01T00:00:00.000Z (<id-1@proton.me>)"
  /\ lastSendInfo Sample.runtime (Some (SendSuccess 0 (Some [])))
     = js "success at 1970-01-01T00:00:00.000Z".
Proof. split; reflexivity. Qed.

Example schema_sample :
  fst (callTool Sample.runtime Sample.cfgOpen Sample.calmWorld
         (Sample.sendRequest "" "" "text" None) Sample.machine0)
  = Throw (mkMcpError InvalidParams
             (js "to: 'to' is required; subject: 'subject' is required")).
Proof. vm_compute. reflexivity. Qed.

Example send_sample :
  fst (callTool Sample.runtime Sample.cfgOpen Sample.calmWorld
         Sample.plainRequest Sample.machine0)
  = Return (mkResult (js "Email sent successfully to a@x.com, b@x.com.")).
Proof. vm_compute. reflexivity. Qed.

Example unknown_tool_sample :
  fst (callTool Sample.runtime Sample.cfgOpen Sample.calmWorld
         (mkRequest (js "list_mail") None) Sample.machine0)
  = Throw (mkMcpError MethodNotFound (js "Unknown tool: list_mail")).
Proof. vm_compute. reflexivity. Qed.

(** * Further properties of the module *)

(** ** TLS version *)

(** X1: the effective minimum TLS version is always one of the four
    recognised strings, whatever the environment holds; a recognised string
    is taken as it is, and normalising twice changes nothing. *)
Theorem tls_version_recognised :
  (forall env, TLS_MIN_VERSION env ∈ allowedTlsVersions)
  /\ (forall version,
        version ∈ allowedTlsVersions ->
        normalizeTlsVersion version = version
        /\ TLS_MIN_VERSION (Some version) = version)
  /\ (forall version,
        normalizeTlsVersion (normalizeTlsVersion version)
        = normalizeTlsVersion version).
Proof.
  assert (Hin : forall v, normalizeTlsVersion v ∈ allowedTlsVersions).
  { intros v. unfold normalizeTlsVersion.
    destruct (existsb _ _) eqn:E; [by apply allowed_recognised |].
    apply allowed_recognised. reflexivity. }
  assert (Hid : forall v, v ∈ allowedTlsVersions -> normalizeTlsVersion v = v).
  { intros v Hv. unfold normalizeTlsVersion.
    by rewrite (proj2 (allowed_recognised v) Hv). }
  split; [| split].
  - intros env. apply Hin.
  - intros version Hv. split; [by apply Hid |].
    unfold TLS_MIN_VERSION. destruct version as [| c version].
    + apply allowed_recognised in Hv. vm_compute in Hv. discriminate.
    + by apply Hid.
  - intros version. apply Hid, Hin.
Qed.

Lemma tls_version_recognised_witness :
  normalizeTlsVersion (js "TLSv1.3") = js "TLSv1.3"
  /\ TLS_MIN_VERSION (Some (js "TLSv1.3")) = js "TLSv1.3".
Proof.
  pose proof tls_version_recognised as (_ & Hkeep & _).
  apply (Hkeep (js "TLSv1.3")). apply allowed_recognised. reflexivity.
Defined.

(** ** Normalised requests *)

Lemma trim_elem (s : jsstring) (c : N) : c ∈ trim s -> c ∈ s.
Proof.
  intros H. destruct (trim_stripped s) as ((pre & suf & Hs & _) & _).
  rewrite Hs, !elem_of_app. auto.
Qed.

Lemma trim_skip (c : N) (s : jsstring) :
  isWhiteSpace c = true -> trim (c :: s) = trim s.
Proof. intros H. unfold trim. simpl. by rewrite H. Qed.

Lemma join_elem (sep : jsstring) (pieces : list jsstring) (p : jsstring) (c : N) :
  p ∈ pieces -> c ∈ p -> c ∈ join sep pieces.
Proof.
  induction pieces as [| q qs IH]; intros Hp Hc; [by apply not_elem_of_nil in Hp |].
  apply elem_of_cons in Hp as [-> | Hp].
  - destruct qs; simpl; [assumption |]. rewrite elem_of_app. by left.
  - destruct qs as [| q' qs']; [by apply not_elem_of_nil in Hp |].
    change (join sep (q :: q' :: qs')) with (q ++ sep ++ join sep (q' :: qs')).
    rewrite !elem_of_app. right. right. by apply IH.
Qed.

Lemma split_elem (sep : N) (s p : jsstring) (c : N) :
  p ∈ split sep s -> c ∈ p -> c ∈ s.
Proof.
  intros Hp Hc. rewrite <- (join_split sep s). by eapply join_elem.
Qed.

Lemma normalizeRecipientList_value raw fieldName l :
  normalizeRecipientList (Some raw) fieldName = Return l ->
  HEADER_INJECTION_PATTERN_test raw = false
  /\ l = recipientsOf (split COMMA raw).
Proof.
  unfold normalizeRecipientList. rewrite recipientsOf_filter.
  destruct raw as [| c raw]; [by intros [= <-] |].
  destruct (HEADER_INJECTION_PATTERN_test _); [discriminate |].
  by intros [= <-].
Qed.

Lemma recipientsOf_elem (pieces : list jsstring) (r : jsstring) :
  r ∈ recipientsOf pieces -> r <> [] /\ exists p, p ∈ pieces /\ r = trim p.
Proof.
  induction pieces as [| p ps IH]; simpl; [by intros H%not_elem_of_nil |].
  destruct (trim p) as [| c t] eqn:E.
  - intros H. destruct (IH H) as (Hne & q & Hq & ->).
    split; [assumption |]. exists q. split; [by right | reflexivity].
  - intros [-> | H]%elem_of_cons.
    + split; [discriminate |]. exists p. split; [by left | by rewrite E].
    + destruct (IH H) as (Hne & q & Hq & ->).
      split; [assumption |]. exists q. split; [by right | reflexivity].
Qed.

(** Every entry of a normalised recipient list is a clean address. *)
Lemma normalizeRecipientList_clean rawValue fieldName l :
  normalizeRecipientList rawValue fieldName = Return l -> Forall cleanAddress l.
Proof.
  destruct rawValue as [raw |]; [| by intros [= <-]].
  intros (Hfree & ->)%normalizeRecipientList_value.
  apply lineBreak_free in Hfree as [Hcr Hlf].
  apply Forall_forall. intros r (Hne & p & Hp & ->)%recipientsOf_elem.
  split; [assumption |]. split; [apply trim_idempotent |].
  split; [| split]; intros Hc%trim_elem.
  - pose proof (split_pieces_free COMMA raw) as Hall.
    rewrite Forall_forall in Hall. by apply (Hall p Hp).
  - by apply Hcr, (split_elem COMMA raw p).
  - by apply Hlf, (split_elem COMMA raw p).
Qed.

Lemma normalizeEmailArgs_inv parsed normalized :
  normalizeEmailArgs parsed = Return normalized ->
  normalizeRecipientList (Some (raw_to parsed)) (js "to")
  = Return (n_to normalized)
  /\ n_to normalized <> []
  /\ normalizeRecipientList (raw_cc parsed) (js "cc") = Return (n_cc normalized)
  /\ normalizeRecipientList (raw_bcc parsed) (js "bcc")
     = Return (n_bcc normalized)
  /\ HEADER_INJECTION_PATTERN_test (raw_subject parsed) = false
  /\ n_subject normalized = trim (raw_subject parsed)
  /\ n_body normalized = raw_body parsed
  /\ n_isHtml normalized
     = match raw_isHtml parsed with Some true => true | _ => false end.
Proof.
  unfold normalizeEmailArgs.
  destruct (normalizeRecipientList (Some _) _) as [toList |] eqn:Eto; simpl;
    [| discriminate].
  destruct toList as [| r toList]; [discriminate |].
  destruct (normalizeRecipientList (raw_cc _) _) eqn:Ecc; simpl;
    [| discriminate].
  destruct (normalizeRecipientList (raw_bcc _) _) eqn:Ebcc; simpl;
    [| discriminate].
  unfold sanitizeHeaderField.
  destruct (HEADER_INJECTION_PATTERN_test (raw_subject _)) eqn:Es; simpl;
    [discriminate |].
  intros [= <-]. simpl. repeat split; done.
Qed.

(** X2: what [normalizeEmailArgs] returns is well formed: there is at least
    one [to] address; every [to], [cc] and [bcc] address is non-empty, has no
    surrounding whitespace and contains no comma, CR or LF; the subject has
    no surrounding whitespace and no CR or LF; the body is the one of the
    request; and [isHtml] is set only when the request says [true]. *)
Theorem normalized_well_formed parsed normalized :
  normalizeEmailArgs parsed = Return normalized ->
  n_to normalized <> []
  /\ Forall cleanAddress
       (n_to normalized ++ n_cc normalized ++ n_bcc normalized)
  /\ trim (n_subject normalized) = n_subject normalized
  /\ HEADER_INJECTION_PATTERN_test (n_subject normalized) = false
  /\ n_body normalized = raw_body parsed
  /\ (n_isHtml normalized = true <-> raw_isHtml parsed = Some true).
Proof.
  intros (Hto & Hne & Hcc & Hbcc & Hsub & -> & -> & ->)%normalizeEmailArgs_inv.
  split; [assumption |]. split; [| split; [| split; [| split]]].
  - rewrite !Forall_app.
    repeat split; eapply normalizeRecipientList_clean; eassumption.
  - apply trim_idempotent.
  - apply lineBreak_free in Hsub as [Hcr Hlf]. apply lineBreak_free.
    split; intros Hc%trim_elem; auto.
  - reflexivity.
  - destruct (raw_isHtml parsed) as [[|] |]; split; congruence.
Qed.

Lemma normalized_well_formed_witness :
  n_to (mkNormalizedEmailArgs [js "a@x.com"; js "b@x.com"] (js "hello")
          (js " text ") false [] [])
  <> []
  /\ Forall cleanAddress ([js "a@x.com"; js "b@x.com"] ++ [] ++ []).
Proof.
  destruct (normalized_well_formed
              (mkParsedArgs (js " a@x.com ,b@x.com,") (js " hello ")
                 (js " text ") None None (Some []))
              (mkNormalizedEmailArgs [js "a@x.com"; js "b@x.com"] (js "hello")
                 (js " text ") false [] []))
    as (Hne & Hclean & _).
  - vm_compute. reflexivity.
  - split; assumption.
Defined.

(** *** Recipient header round trip *)

Lemma join_comma_space (r : jsstring) (rs : list jsstring) :
  join (js ", ") (r :: rs) = join [COMMA] (r :: List.map (cons 32%N) rs).
Proof.
  revert r. induction rs as [| q qs IH]; intros r; [reflexivity |].
  change (join (js ", ") (r :: q :: qs))
    with (r ++ [COMMA] ++ 32%N :: join (js ", ") (q :: qs)).
  rewrite IH. destruct qs; reflexivity.
Qed.

Lemma recipientsOf_spaced (rs : list jsstring) :
  Forall cleanAddress rs -> recipientsOf (List.map (cons 32%N) rs) = rs.
Proof.
  induction 1 as [| r rs (Hne & Htrim & _) _ IH]; simpl; [reflexivity |].
  rewrite (trim_skip 32%N r eq_refl), Htrim, IH.
  by destruct r.
Qed.

(** X3: the header string the handler builds from a normalised recipient
    list reads back as the same list: normalising
    [formatRecipientField l] (the addresses joined by [", "], or no value for
    the empty list) gives [l] again, for every list of clean addresses. *)
Theorem recipient_header_round_trip (l : list jsstring) (fieldName : jsstring) :
  Forall cleanAddress l ->
  normalizeRecipientList (formatRecipientField l) fieldName = Return l.
Proof.
  intros Hall. destruct l as [| r rs]; [reflexivity |].
  inversion Hall as [| ? ? Hr Hrs]; subst.
  destruct Hr as (Hne & Htrim & Hcomma & Hcr & Hlf).
  unfold formatRecipientField. rewrite join_comma_space.
  assert (Hpieces : Forall (fun p => (COMMA ∉ p) /\ (CR ∉ p) /\ (LF ∉ p))
                      (r :: List.map (cons 32%N) rs)).
  { constructor; [auto |]. apply Forall_forall.
    intros p Hp. apply list_elem_of_In, in_map_iff in Hp as (q & <- & Hq).
    apply list_elem_of_In in Hq. rewrite Forall_forall in Hrs.
    destruct (Hrs q Hq) as (_ & _ & Hc & Hcr' & Hlf').
    rewrite !not_elem_of_cons. repeat split; auto; discriminate. }
  unfold normalizeRecipientList.
  destruct (join [COMMA] (r :: List.map (cons 32%N) rs)) as [| c raw] eqn:E.
  { exfalso. apply Hne. destruct r as [| c r]; [reflexivity |].
    rewrite join_cons_unit in E. discriminate. }
  rewrite <- E. rewrite join_lineBreak_free.
  - rewrite split_join; [| discriminate |].
    + rewrite recipientsOf_filter. simpl. rewrite Htrim.
      rewrite (recipientsOf_spaced rs Hrs). by destruct r.
    + eapply Forall_impl; [exact Hpieces |]. simpl. tauto.
  - eapply Forall_impl; [exact Hpieces |]. simpl. tauto.
Qed.

Lemma recipient_header_round_trip_witness :
  normalizeRecipientList
    (formatRecipientField [js "a@x.com"; js "b c@x.com"]) (js "to")
  = Return [js "a@x.com"; js "b c@x.com"].
Proof.
  apply recipient_header_round_trip.
  repeat constructor; try discriminate;
    intros Hin; apply list_elem_of_In in Hin; vm_compute in Hin;
    intuition discriminate.
Defined.

(** ** The handler, stage by stage *)

Section Handler.

Variable rt : Runtime.
Variable cfg : Config.
Variable world : World.

Lemma enforceAllowList_Throw recipients e :
  enforceAllowList rt cfg recipients = Throw e -> code e = InvalidRequest.
Proof.
  unfold enforceAllowList. destruct (negb _); [discriminate |].
  destruct (List.filter _ _); [discriminate |]. by intros [= <-].
Qed.

Lemma checkRateLimit_Throw m e m' :
  checkRateLimit rt cfg world m = (Throw e, m') -> code e = InvalidRequest.
Proof.
  unfold checkRateLimit, bind, dateNow, ret.
  destruct (negb _ || _); [discriminate |].
  destruct (60000 <=? _); simpl; destruct (ge_number _ _);
    try discriminate; by intros [= <- <-].
Qed.

Lemma checkRateLimit_ticks m o m' :
  checkRateLimit rt cfg world m = (o, m') -> (ticks m <= ticks m')%nat.
Proof.
  unfold checkRateLimit, bind, dateNow, ret.
  destruct (negb _ || _); [by intros [= <- <-] |].
  destruct (60000 <=? _); simpl;
    destruct (ge_number _ _); intros [= <- <-]; simpl; lia.
Qed.

(** What [deliver] does: one send with the options built from the
    normalised request, one clock reading, the slot written, the limiter
    left alone. *)
Lemma deliver_effect normalized m1 o m' :
  deliver cfg world normalized m1 = (o, m') ->
  trace m' = trace m1 ++ [EvSendMail (transportOptions cfg normalized)]
  /\ rateLimiterState m' = rateLimiterState m1
  /\ ((exists info,
          sendMail world (ticks m1) (transportOptions cfg normalized)
          = Resolved info
          /\ o = Return (mkResult (successText normalized))
          /\ lastSendResult m'
             = Some (SendSuccess (clock world (S (ticks m1))) (messageId info)))
      \/ (exists e,
            sendMail world (ticks m1) (transportOptions cfg normalized)
            = Rejected e
            /\ o = Throw (mkMcpError InternalError
                            (js "Failed to send email: " ++ errorText e))
            /\ lastSendResult m'
               = Some (SendError (clock world (S (ticks m1))) (errorText e)))).
Proof.
  rewrite deliver_run. simpl.
  destruct (sendMail world (ticks m1) _) as [info | e] eqn:E;
    intros [= <- <-]; simpl; (split; [reflexivity |]); (split; [reflexivity |]).
  - left. by exists info.
  - right. by exists e.
Qed.

(** A [send_email] call either is rejected (invalid parameters with the
    machine as it was, or invalid request from the allow list or the rate
    limiter), or passes every stage and ends in [deliver]. *)
Lemma send_email_outcome arguments m o m' :
  send_email rt cfg world arguments m = (o, m') ->
  (exists e,
      o = Throw e
      /\ trace m' = trace m /\ lastSendResult m' = lastSendResult m
      /\ ((code e = InvalidParams /\ m' = m)
          \/ (code e = InvalidRequest
              /\ (m' = m \/ m' = snd (checkRateLimit rt cfg world m)))))
  \/ (exists args parsed normalized m1,
        arguments = Some args
        /\ parseSendEmailArgs rt args = Return parsed
        /\ normalizeEmailArgs parsed = Return normalized
        /\ enforceAllowList rt cfg
             (n_to normalized ++ n_cc normalized ++ n_bcc normalized)
           = Return tt
        /\ checkRateLimit rt cfg world m = (Return tt, m1)
        /\ deliver cfg world normalized m1 = (o, m')).
Proof.
  destruct arguments as [args |];
    [| intros [= <- <-]; left; eexists; repeat split; auto].
  rewrite send_email_stages.
  destruct (parseSendEmailArgs rt args) as [parsed | e] eqn:Ep.
  2: { intros [= <- <-]. left. exists e. repeat split; auto.
       left. split; [by eapply parse_Throw | reflexivity]. }
  destruct (normalizeEmailArgs parsed) as [normalized | e] eqn:En.
  2: { intros [= <- <-]. left. exists e. repeat split; auto.
       left. split; [by eapply normalizeEmailArgs_Throw | reflexivity]. }
  destruct (enforceAllowList rt cfg _) as [[] | e] eqn:Ea.
  2: { intros [= <- <-]. left. exists e. repeat split; auto.
       right. split; [by eapply enforceAllowList_Throw | by left]. }
  destruct (checkRateLimit rt cfg world m) as [[[] | e] m1] eqn:Er.
  - intros Hd. right. by exists args, parsed, normalized, m1.
  - intros [= <- <-]. left. exists e.
    destruct (checkRateLimit_frame rt cfg world _ _ _ Er) as [Ht Hs].
    repeat split; auto. right.
    split; [by eapply checkRateLimit_Throw | by right].
Qed.

Lemma no_events m m' : trace m' = trace m -> eventsSince m m' = [].
Proof. intros H. apply eventsSince_app. by rewrite app_nil_r. Qed.

(** *** What reaches the transport *)





(** *** Error kinds and outcomes *)

(** X5: the kind of a failed call tells what happened: method-not-found
    exactly for a tool name other than the two tools; internal-error exactly
    when the transport was invoked; and an invalid-parameters failure leaves
    the whole machine as it was (no clock reading, no quota used). *)
Theorem error_kinds request m e m' :
  callTool rt cfg world request m = (Throw e, m') ->
  (code e = MethodNotFound
   <-> name request <> SEND_TOOL_NAME /\ name request <> HEALTH_TOOL_NAME)
  /\ (code e = InternalError <-> transportInvoked m m')
  /\ (code e = InvalidParams -> m' = m).
Proof.
  unfold callTool, jsstring_eqb.
  destruct (bool_decide (name request = SEND_TOOL_NAME)) eqn:Es.
  - apply bool_decide_eq_true in Es. intros Hcall.
    apply send_email_outcome in Hcall
      as [(e' & [= <-] & Ht & _ & Hkind)
         | (args & parsed & n & m1 & _ & _ & _ & _ & Hr & Hd)].
    + assert (Hquiet : ~ transportInvoked m m').
      { intros [opts Hin]. rewrite (no_events _ _ Ht) in Hin.
        by apply not_elem_of_nil in Hin. }
      destruct Hkind as [[Hc ->] | [Hc _]]; rewrite Hc;
        repeat split; try done; intros [? ?]; done.
    + apply checkRateLimit_frame in Hr as [Ht1 _].
      apply deliver_effect in Hd
        as (Ht & _ & [(info & _ & [=] & _) | (e' & _ & [= ->] & _)]).
      rewrite Ht1 in Ht. simpl.
      split; [split; [discriminate | intros [? ?]; done] |].
      split; [| discriminate]. split; [| reflexivity].
      intros _. eexists. rewrite (eventsSince_app _ _ _ Ht). left.
  - apply bool_decide_eq_false in Es.
    destruct (bool_decide (name request = HEALTH_TOOL_NAME)) eqn:Eh.
    + rewrite health_check_run. discriminate.
    + apply bool_decide_eq_false in Eh. intros [= <- <-]. simpl.
      split; [tauto |]. split; [| discriminate]. split; [discriminate |].
      intros [opts Hin]. rewrite (no_events m m eq_refl) in Hin.
      by apply not_elem_of_nil in Hin.
Qed.

Lemma deliver_ticks normalized m1 o m' :
  deliver cfg world normalized m1 = (o, m') -> ticks m' = S (S (ticks m1)).
Proof.
  rewrite deliver_run. simpl.
  destruct (sendMail world (ticks m1) _); by intros [= <- <-].
Qed.

(** X6: a send_email call returns normally only after the transport has
    accepted the message: the call made exactly one send, as its last
    interaction but one, the transport's answer to that very send was an
    acceptance, the slot holds the success record with the identifier of
    that answer and the clock reading that followed, and the confirmation
    text starts by naming the recipients joined by [", "]. *)
Theorem success_means_sent arguments m r m' :
  callTool rt cfg world (mkRequest SEND_TOOL_NAME arguments) m = (Return r, m') ->
  exists args parsed normalized info k,
    arguments = Some args
    /\ parseSendEmailArgs rt args = Return parsed
    /\ normalizeEmailArgs parsed = Return normalized
    /\ eventsSince m m' = [EvSendMail (transportOptions cfg normalized)]
    /\ (ticks m <= k)%nat /\ ticks m' = S (S k)
    /\ sendMail world k (transportOptions cfg normalized) = Resolved info
    /\ lastSendResult m'
       = Some (SendSuccess (clock world (S k)) (messageId info))
    /\ (js "Email sent successfully to " ++ join (js ", ") (n_to normalized))
       `prefix_of` text r.
Proof.
  rewrite callTool_send. intros Hcall.
  apply send_email_outcome in Hcall
    as [(e & [=] & _) | (args & parsed & n & m1 & -> & Hp & Hn & _ & Hr & Hd)].
  pose proof (checkRateLimit_ticks _ _ _ Hr) as Hticks.
  apply checkRateLimit_frame in Hr as [Ht1 _].
  pose proof (deliver_ticks _ _ _ _ Hd) as Hk.
  apply deliver_effect in Hd
    as (Ht & _ & [(info & Hsent & [= ->] & Hslot) | (e' & _ & [=] & _)]).
  rewrite Ht1 in Ht.
  exists args, parsed, n, info, (ticks m1).
  repeat split; try assumption.
  - by apply eventsSince_app.
  - simpl. unfold successText. rewrite (app_assoc (js _) (join _ _)).
    by eexists.
Qed.

(** *** Quota accounting *)

(** X7: the quota is taken before the transport is tried and never given
    back: after a call that reached the transport, the limiter is in the
    state the admission check left it in, whether the transport accepted or
    refused the message. *)
Theorem quota_kept_on_transport_failure arguments m o m' :
  callTool rt cfg world (mkRequest SEND_TOOL_NAME arguments) m = (o, m') ->
  transportInvoked m m' ->
  rateLimiterState m'
  = rateLimiterState (snd (checkRateLimit rt cfg world m)).
Proof.
  rewrite callTool_send. intros Hcall [opts Hin].
  apply send_email_outcome in Hcall
    as [(e & _ & Ht & _) | (args & parsed & n & m1 & _ & _ & _ & _ & Hr & Hd)].
  { rewrite (no_events _ _ Ht) in Hin. by apply not_elem_of_nil in Hin. }
  apply deliver_effect in Hd as (_ & -> & _). by rewrite Hr.
Qed.

(** *** The slot over a run *)





(** *** The allow list of the environment *)

Lemma nonEmpty_true (x : jsstring) : nonEmpty x = true <-> x <> [].
Proof. destruct x; simpl; split; done. Qed.

Lemma elem_of_parseAllowList env x :
  x ∈ parseAllowList rt env
  <-> x <> [] /\ exists entry, entry ∈ split COMMA env
                               /\ x = toLowerCase rt (trim entry).
Proof.
  unfold parseAllowList.
  rewrite elem_of_list_to_set, list_elem_of_In, filter_In, in_map_iff,
    nonEmpty_true.
  split.
  - intros [(entry & <- & He) Hne]. split; [assumption |].
    exists entry. by rewrite list_elem_of_In.
  - intros [Hne (entry & He & ->)]. split; [| assumption].
    exists entry. by rewrite <- list_elem_of_In.
Qed.

Lemma enforceAllowList_Return recipients :
  enforceAllowList rt cfg recipients = Return tt
  <-> ALLOW_LIST cfg = ∅
      \/ Forall (fun r => toLowerCase rt r ∈ ALLOW_LIST cfg) recipients.
Proof.
  unfold enforceAllowList.
  destruct (allowListEnabled cfg) eqn:E; simpl.
  - apply allowListEnabled_iff in E.
    destruct (List.filter _ recipients) as [| d ds] eqn:Ef.
    + split; [| reflexivity]. intros _. right. apply Forall_forall.
      intros r Hr. destruct (decide (toLowerCase rt r ∈ ALLOW_LIST cfg)) as [|Hout];
        [assumption | exfalso].
      assert (Hd : In r (List.filter (disallowedRecipient rt cfg) recipients)).
      { apply filter_In. split; [by apply list_elem_of_In |].
        unfold disallowedRecipient. by rewrite bool_decide_eq_false_2. }
      by rewrite Ef in Hd.
    + split; [discriminate |]. intros [Hempty | Hall]; [done | exfalso].
      assert (Hd : In d (List.filter (disallowedRecipient rt cfg) recipients))
        by (rewrite Ef; by left).
      apply filter_In in Hd as [Hd Hdis]. apply list_elem_of_In in Hd.
      rewrite Forall_forall in Hall. specialize (Hall d Hd).
      unfold disallowedRecipient in Hdis.
      by rewrite bool_decide_eq_true_2 in Hdis.
  - split; [| reflexivity]. intros _. left.
    destruct (decide (ALLOW_LIST cfg = ∅)) as [| Hne]; [assumption |].
    apply allowListEnabled_iff in Hne. congruence.
Qed.

(** X9: with the allow set built from the environment string, a request's
    recipients pass the guard exactly when the string holds no usable entry
    (the guard is off) or every recipient is listed: its lower-cased form is
    the lower-cased, trimmed form of some comma-separated entry.  Case and
    surrounding blanks of the entries do not matter. *)
Theorem allow_list_from_environment env recipients :
  ALLOW_LIST cfg = parseAllowList rt env ->
  (enforceAllowList rt cfg recipients = Return tt
   <-> (forall entry, entry ∈ split COMMA env ->
                      toLowerCase rt (trim entry) = [])
       \/ Forall (listedIn rt env) recipients).
Proof.
  intros Hcfg. rewrite enforceAllowList_Return, Hcfg.
  assert (Hempty : parseAllowList rt env = ∅
                   <-> forall entry, entry ∈ split COMMA env ->
                                     toLowerCase rt (trim entry) = []).
  { split.
    - intros H entry He.
      destruct (toLowerCase rt (trim entry)) as [| c x] eqn:Ex; [reflexivity |].
      assert (Hin : c :: x ∈ parseAllowList rt env).
      { apply elem_of_parseAllowList. split; [discriminate |]. by exists entry. }
      rewrite H in Hin. by apply not_elem_of_empty in Hin.
    - intros H. apply leibniz_equiv, elem_of_equiv_empty. intros x Hx.
      apply elem_of_parseAllowList in Hx as (Hne & entry & He & ->).
      by apply Hne, H. }
  rewrite Hempty.
  assert (Hlisted : forall r, toLowerCase rt r ∈ parseAllowList rt env
                              <-> listedIn rt env r)
    by (intros r; apply elem_of_parseAllowList).
  split; (intros [H | H]; [by left | right]);
    (eapply Forall_impl; [exact H |]); intros r; apply Hlisted.
Qed.

(** X10: an environment string that is empty or holds only blanks and
    commas gives the empty allow set, so the guard lets every recipient
    through (given that lower-casing the empty string gives the empty
    string). *)
Theorem blank_allow_list_disables env recipients :
  toLowerCase rt [] = [] -> blankList env ->
  ALLOW_LIST cfg = parseAllowList rt env ->
  parseAllowList rt env = ∅
  /\ enforceAllowList rt cfg recipients = Return tt.
Proof.
  intros Hlower Hblank Hcfg.
  assert (Hempty : parseAllowList rt env = ∅).
  { apply leibniz_equiv, elem_of_equiv_empty. intros x Hx.
    apply elem_of_parseAllowList in Hx as (Hne & entry & He & ->).
    apply Hne. apply split_blank in Hblank. rewrite Forall_forall in Hblank.
    by rewrite (trim_blank entry (Hblank entry He)). }
  split; [assumption |].
  apply enforceAllowList_Return. left. by rewrite Hcfg.
Qed.

(** *** The schema *)

Lemma zodRequiredString_cases key requiredMessage maximum v :
  (exists s, zodRequiredString rt key requiredMessage maximum v = inr s
             /\ boundedString v maximum)
  \/ (exists issues,
         zodRequiredString rt key requiredMessage maximum v = inl issues
         /\ issues <> []
         /\ Forall (fun i => path i = [key]) issues
         /\ ~ boundedString v maximum).
Proof.
  unfold zodRequiredString, boundedString.
  destruct v as [[| b | | s |] |];
    try (right; eexists; split; [reflexivity |];
         split; [discriminate |]; split; [by repeat constructor |];
         by intros (s' & [=] & _)).
  destruct (Z.of_nat (length s) <? 1) eqn:E1;
    destruct (maximum <? Z.of_nat (length s)) eqn:E2; simpl.
  4: { left. exists s. split; [reflexivity |]. exists s. split; [reflexivity | lia]. }
  all: right; eexists; split; [reflexivity |];
    split; [discriminate |]; split; [by repeat constructor |];
    intros (s' & [= <-] & Hlen); lia.
Qed.

Lemma zodOptionalString_cases key v :
  (exists o, zodOptionalString rt key v = inr o /\ optionalString v)
  \/ (exists issues,
         zodOptionalString rt key v = inl issues
         /\ issues <> []
         /\ Forall (fun i => path i = [key]) issues
         /\ ~ optionalString v).
Proof.
  unfold zodOptionalString, optionalString.
  destruct v as [[| b | | s |] |];
    try (right; eexists; split; [reflexivity |];
         split; [discriminate |]; split; [by repeat constructor |];
         by intros [[=] | (s' & [=])]).
  - left. eexists. split; [reflexivity |]. right. by exists s.
  - left. eexists. split; [reflexivity |]. by left.
Qed.

Lemma zodOptionalBoolean_cases key v :
  (exists o, zodOptionalBoolean rt key v = inr o /\ optionalBoolean v)
  \/ (exists issues,
         zodOptionalBoolean rt key v = inl issues
         /\ issues <> []
         /\ Forall (fun i => path i = [key]) issues
         /\ ~ optionalBoolean v).
Proof.
  unfold zodOptionalBoolean, optionalBoolean.
  destruct v as [[| b | | s |] |];
    try (right; eexists; split; [reflexivity |];
         split; [discriminate |]; split; [by repeat constructor |];
         by intros [[=] | (s' & [=])]).
  - left. eexists. split; [reflexivity |]. right. by exists b.
  - left. eexists. split; [reflexivity |]. by left.
Qed.

Lemma accepted_fields args :
  Forall (fieldAccepted args) schemaKeys
  <-> boundedString (args !! js "to") 2048
      /\ boundedString (args !! js "subject") 512
      /\ boundedString (args !! js "body") 20000
      /\ optionalBoolean (args !! js "isHtml")
      /\ optionalString (args !! js "cc")
      /\ optionalString (args !! js "bcc").
Proof.
  unfold schemaKeys. rewrite !Forall_cons, Forall_nil.
  change (fieldAccepted args (js "to"))
    with (boundedString (args !! js "to") 2048).
  change (fieldAccepted args (js "subject"))
    with (boundedString (args !! js "subject") 512).
  change (fieldAccepted args (js "body"))
    with (boundedString (args !! js "body") 20000).
  change (fieldAccepted args (js "isHtml"))
    with (optionalBoolean (args !! js "isHtml")).
  change (fieldAccepted args (js "cc")) with (optionalString (args !! js "cc")).
  change (fieldAccepted args (js "bcc")) with (optionalString (args !! js "bcc")).
  tauto.
Qed.

(** X11: the schema accepts the arguments exactly when [to], [subject] and
    [body] are strings of 1 to 2048, 512 and 20000 code units, [isHtml] is
    absent or a boolean, and [cc] and [bcc] are absent or strings; every
    other argument object is refused with an invalid-parameters error. *)
Theorem schema_accepts_iff args :
  ((exists parsed, parseSendEmailArgs rt args = Return parsed)
   <-> Forall (fieldAccepted args) schemaKeys)
  /\ (~ Forall (fieldAccepted args) schemaKeys ->
      exists e, parseSendEmailArgs rt args = Throw e /\ code e = InvalidParams).
Proof.
  assert (Hiff : (exists parsed, parseSendEmailArgs rt args = Return parsed)
                 <-> Forall (fieldAccepted args) schemaKeys).
  { rewrite accepted_fields. unfold parseSendEmailArgs, sendEmailSchema_parse.
    destruct (zodRequiredString_cases (js "to") (js "'to' is required") 2048
                (args !! js "to")) as [(t & -> & Ht) | (i1 & -> & _ & _ & Ht)];
    destruct (zodRequiredString_cases (js "subject")
                (js "'subject' is required") 512 (args !! js "subject"))
      as [(s & -> & Hs) | (i2 & -> & _ & _ & Hs)];
    destruct (zodRequiredString_cases (js "body") (js "'body' is required")
                20000 (args !! js "body"))
      as [(b & -> & Hb) | (i3 & -> & _ & _ & Hb)];
    destruct (zodOptionalBoolean_cases (js "isHtml") (args !! js "isHtml"))
      as [(h & -> & Hh) | (i4 & -> & _ & _ & Hh)];
    destruct (zodOptionalString_cases (js "cc") (args !! js "cc"))
      as [(c & -> & Hc) | (i5 & -> & _ & _ & Hc)];
    destruct (zodOptionalString_cases (js "bcc") (args !! js "bcc"))
      as [(bc & -> & Hbc) | (i6 & -> & _ & _ & Hbc)];
    (split; [intros [parsed Hp]; try discriminate; tauto
            | intros H; try tauto; by eexists]). }
  split; [exact Hiff |]. intros Hbad.
  destruct (parseSendEmailArgs rt args) as [parsed | e] eqn:E.
  - exfalso. apply Hbad, Hiff. by exists parsed.
  - exists e. split; [reflexivity | by eapply parse_Throw].
Qed.

(** X12: keys outside the schema are ignored: adding or changing any other
    key of the argument object changes nothing in what the call does. *)
Theorem unknown_keys_ignored args key v m :
  key ∉ schemaKeys ->
  callTool rt cfg world
    (mkRequest SEND_TOOL_NAME (Some (<[key := v]> args))) m
  = callTool rt cfg world (mkRequest SEND_TOOL_NAME (Some args)) m.
Proof.
  unfold schemaKeys. rewrite !not_elem_of_cons. intros (H1 & H2 & H3 & H4 & H5 & H6 & _).
  rewrite !callTool_send, !send_email_stages.
  assert (E : parseSendEmailArgs rt (<[key := v]> args)
              = parseSendEmailArgs rt args).
  { unfold parseSendEmailArgs, sendEmailSchema_parse.
    by rewrite !lookup_insert_ne by done. }
  by rewrite E.
Qed.

Lemma exists_issue_app (P : ZodIssue -> Prop) (a b : list ZodIssue) :
  (exists i, i ∈ a ++ b /\ P i)
  <-> (exists i, i ∈ a /\ P i) \/ (exists i, i ∈ b /\ P i).
Proof.
  split.
  - intros (i & [Hi | Hi]%elem_of_app & HP); eauto.
  - intros [(i & Hi & HP) | (i & Hi & HP)]; exists i; rewrite elem_of_app; auto.
Qed.

Lemma issue_group key k (issues : list ZodIssue) :
  Forall (fun i => path i = [k]) issues ->
  (exists i, i ∈ issues /\ path i = [key]) <-> key = k /\ issues <> [].
Proof.
  intros Hall. rewrite Forall_forall in Hall. split.
  - intros (i & Hi & Hp). rewrite (Hall i Hi) in Hp. injection Hp as ->.
    split; [reflexivity |]. intros ->. by apply not_elem_of_nil in Hi.
  - intros [-> Hne]. destruct issues as [| i issues]; [done |].
    exists i. split; [by left | apply Hall; by left].
Qed.

Lemma report_required key requiredMessage maximum v :
  fieldReport key (boundedString v maximum)
    (issuesOf (zodRequiredString rt key requiredMessage maximum v)).
Proof.
  destruct (zodRequiredString_cases key requiredMessage maximum v)
    as [(s & -> & H) | (i & -> & Hne & Hall & H)]; simpl; split; try done.
Qed.

Lemma report_string key v :
  fieldReport key (optionalString v) (issuesOf (zodOptionalString rt key v)).
Proof.
  destruct (zodOptionalString_cases key v)
    as [(s & -> & H) | (i & -> & Hne & Hall & H)]; simpl; split; try done.
Qed.

Lemma report_boolean key v :
  fieldReport key (optionalBoolean v) (issuesOf (zodOptionalBoolean rt key v)).
Proof.
  destruct (zodOptionalBoolean_cases key v)
    as [(s & -> & H) | (i & -> & Hne & Hall & H)]; simpl; split; try done.
Qed.

Lemma schema_issues args issues :
  sendEmailSchema_parse rt args = inl issues ->
  issues
  = issuesOf (zodRequiredString rt (js "to") (js "'to' is required") 2048
                (args !! js "to"))
    ++ issuesOf (zodRequiredString rt (js "subject")
                   (js "'subject' is required") 512 (args !! js "subject"))
    ++ issuesOf (zodRequiredString rt (js "body") (js "'body' is required")
                   20000 (args !! js "body"))
    ++ issuesOf (zodOptionalBoolean rt (js "isHtml") (args !! js "isHtml"))
    ++ issuesOf (zodOptionalString rt (js "cc") (args !! js "cc"))
    ++ issuesOf (zodOptionalString rt (js "bcc") (args !! js "bcc")).
Proof.
  unfold sendEmailSchema_parse.
  destruct (zodRequiredString rt (js "to") _ _ _);
    destruct (zodRequiredString rt (js "subject") _ _ _);
    destruct (zodRequiredString rt (js "body") _ _ _);
    destruct (zodOptionalBoolean rt _ _);
    destruct (zodOptionalString rt (js "cc") _);
    destruct (zodOptionalString rt (js "bcc") _);
    by intros [= <-].
Qed.

Lemma schema_issues_not_empty args issues :
  sendEmailSchema_parse rt args = inl issues -> issues <> [].
Proof.
  unfold sendEmailSchema_parse.
  destruct (zodRequiredString_cases (js "to") (js "'to' is required") 2048
              (args !! js "to")) as [(t & -> & _) | (i1 & -> & N1 & _)];
  destruct (zodRequiredString_cases (js "subject")
              (js "'subject' is required") 512 (args !! js "subject"))
    as [(s & -> & _) | (i2 & -> & N2 & _)];
  destruct (zodRequiredString_cases (js "body") (js "'body' is required")
              20000 (args !! js "body"))
    as [(b & -> & _) | (i3 & -> & N3 & _)];
  destruct (zodOptionalBoolean_cases (js "isHtml") (args !! js "isHtml"))
    as [(h & -> & _) | (i4 & -> & N4 & _)];
  destruct (zodOptionalString_cases (js "cc") (args !! js "cc"))
    as [(c & -> & _) | (i5 & -> & N5 & _)];
  destruct (zodOptionalString_cases (js "bcc") (args !! js "bcc"))
    as [(bc & -> & _) | (i6 & -> & N6 & _)];
  simpl; intros [= <-]; intros Happ;
  repeat (apply app_eq_nil in Happ as [? Happ]); congruence.
Qed.

(** X13: a refusal by the schema names every offending field and no other:
    the list of issues is not empty, has an issue under a schema key exactly
    when that field is not acceptable, and every issue sits under one schema
    key, so the message is the [key: text] entries joined by ["; "]. *)
Theorem schema_reports_every_field args issues :
  sendEmailSchema_parse rt args = inl issues ->
  issues <> []
  /\ (forall key, key ∈ schemaKeys ->
        ((exists i, i ∈ issues /\ path i = [key]) <-> ~ fieldAccepted args key))
  /\ Forall (fun i => exists key, key ∈ schemaKeys
                                  /\ renderIssue i
                                     = key ++ js ": " ++ issue_message i)
       issues
  /\ parseSendEmailArgs rt args
     = Throw (mkMcpError InvalidParams
                (join (js "; ") (List.map renderIssue issues))).
Proof.
  intros Hparse.
  assert (Hthrow : parseSendEmailArgs rt args
                   = Throw (mkMcpError InvalidParams
                              (join (js "; ") (List.map renderIssue issues))))
    by (unfold parseSendEmailArgs; by rewrite Hparse).
  pose proof (schema_issues args issues Hparse) as Hissues.
  pose proof (report_required (js "to") (js "'to' is required") 2048
                (args !! js "to")) as [A1 B1].
  pose proof (report_required (js "subject") (js "'subject' is required") 512
                (args !! js "subject")) as [A2 B2].
  pose proof (report_required (js "body") (js "'body' is required") 20000
                (args !! js "body")) as [A3 B3].
  pose proof (report_boolean (js "isHtml") (args !! js "isHtml")) as [A4 B4].
  pose proof (report_string (js "cc") (args !! js "cc")) as [A5 B5].
  pose proof (report_string (js "bcc") (args !! js "bcc")) as [A6 B6].
  set (I1 := issuesOf (zodRequiredString rt (js "to") _ _ _)) in *.
  set (I2 := issuesOf (zodRequiredString rt (js "subject") _ _ _)) in *.
  set (I3 := issuesOf (zodRequiredString rt (js "body") _ _ _)) in *.
  set (I4 := issuesOf (zodOptionalBoolean rt _ _)) in *.
  set (I5 := issuesOf (zodOptionalString rt (js "cc") _)) in *.
  set (I6 := issuesOf (zodOptionalString rt (js "bcc") _)) in *.
  assert (Hkeys : forall key,
    (exists i, i ∈ issues /\ path i = [key])
    <-> (key = js "to" /\ I1 <> []) \/ (key = js "subject" /\ I2 <> [])
        \/ (key = js "body" /\ I3 <> []) \/ (key = js "isHtml" /\ I4 <> [])
        \/ (key = js "cc" /\ I5 <> []) \/ (key = js "bcc" /\ I6 <> [])).
  { intros key. rewrite Hissues, !exists_issue_app.
    rewrite (issue_group key _ I1 A1), (issue_group key _ I2 A2),
      (issue_group key _ I3 A3), (issue_group key _ I4 A4),
      (issue_group key _ I5 A5), (issue_group key _ I6 A6).
    reflexivity. }
  split; [| split; [| split; [| exact Hthrow]]].
  - by eapply schema_issues_not_empty.
  - intros key Hkey. rewrite Hkeys. unfold schemaKeys in Hkey.
    rewrite !elem_of_cons in Hkey.
    destruct Hkey as [-> | [-> | [-> | [-> | [-> | [-> | Hnil]]]]]];
      [| | | | | | by apply not_elem_of_nil in Hnil].
    + change (fieldAccepted args (js "to"))
        with (boundedString (args !! js "to") 2048).
      split; [intros [[_ H] | [[[=] _] | [[[=] _] | [[[=] _] | [[[=] _] | [[=] _]]]]]]
             | intros H; left]; tauto.
    + change (fieldAccepted args (js "subject"))
        with (boundedString (args !! js "subject") 512).
      split; [intros [[[=] _] | [[_ H] | [[[=] _] | [[[=] _] | [[[=] _] | [[=] _]]]]]]
             | intros H; right; left]; tauto.
    + change (fieldAccepted args (js "body"))
        with (boundedString (args !! js "body") 20000).
      split; [intros [[[=] _] | [[[=] _] | [[_ H] | [[[=] _] | [[[=] _] | [[=] _]]]]]]
             | intros H; do 2 right; left]; tauto.
    + change (fieldAccepted args (js "isHtml"))
        with (optionalBoolean (args !! js "isHtml")).
      split; [intros [[[=] _] | [[[=] _] | [[[=] _] | [[_ H] | [[[=] _] | [[=] _]]]]]]
             | intros H; do 3 right; left]; tauto.
    + change (fieldAccepted args (js "cc"))
        with (optionalString (args !! js "cc")).
      split; [intros [[[=] _] | [[[=] _] | [[[=] _] | [[[=] _] | [[_ H] | [[=] _]]]]]]
             | intros H; do 4 right; left]; tauto.
    + change (fieldAccepted args (js "bcc"))
        with (optionalString (args !! js "bcc")).
      split; [intros [[[=] _] | [[[=] _] | [[[=] _] | [[[=] _] | [[[=] _] | [_ H]]]]]]
             | intros H; do 5 right]; tauto.
  - rewrite Hissues, !Forall_app.
    assert (Hrender : forall key I, key ∈ schemaKeys -> key <> [] ->
      Forall (fun i => path i = [key]) I ->
      Forall (fun i => exists key, key ∈ schemaKeys
                /\ renderIssue i = key ++ js ": " ++ issue_message i) I).
    { intros key I Hkey Hne Hall. eapply Forall_impl; [exact Hall |].
      intros i Hp. exists key. split; [assumption |].
      unfold renderIssue. rewrite Hp. simpl. by destruct key. }
    repeat split;
      (eapply Hrender; [| | eassumption]; [| discriminate]);
      apply list_elem_of_In; vm_compute; tauto.
Qed.

(** *** The rate limiter over several calls *)

Lemma checkRateLimit_step L m :
  RATE_LIMIT_PER_MINUTE cfg = Finite L -> 0 < L ->
  checkRateLimit rt cfg world m
  = let rolled :=
      if 60000 <=? clock world (ticks m) - windowStart (rateLimiterState m)
      then mkRateLimiterState (clock world (ticks m)) 0
      else rateLimiterState m in
    if L <=? count rolled
    then (Throw (rateLimitError rt cfg),
          mkMachine rolled (lastSendResult m) (S (ticks m)) (trace m))
    else (Return tt,
          mkMachine (mkRateLimiterState (windowStart rolled) (count rolled + 1))
            (lastSendResult m) (S (ticks m)) (trace m)).
Proof.
  intros HL Hpos. unfold checkRateLimit, bind, dateNow. rewrite HL. simpl.
  replace (L <=? 0) with false by (symmetry; apply Z.leb_gt; lia).
  destruct m as [[w0 c0] slot t tr]. unfold set_rateLimiterState, interact.
  simpl. rewrite app_nil_r.
  destruct (60000 <=? clock world t - w0); simpl.
  - by destruct (L <=? 0).
  - by destruct (L <=? c0).
Qed.

Lemma checkRateLimit_off m :
  match RATE_LIMIT_PER_MINUTE cfg with
  | Finite L => L <= 0
  | _ => True
  end ->
  checkRateLimit rt cfg world m = (Return tt, m).
Proof.
  intros Hoff. unfold checkRateLimit.
  destruct (RATE_LIMIT_PER_MINUTE cfg) as [L | | |]; simpl; try reflexivity.
  by replace (L <=? 0) with true by (symmetry; apply Z.leb_le; lia).
Qed.

(** X14: within one window the limiter admits exactly as many calls as the
    quota has left: of [n] calls in a row that all fall within 60000 ms of
    the window start, the first [L - count] are admitted (all [n] if there
    are fewer) and every later one is refused. *)
Theorem window_quota L n : forall m,
  RATE_LIMIT_PER_MINUTE cfg = Finite L -> 0 < L ->
  (forall i, (i < n)%nat ->
             clock world (ticks m + i) - windowStart (rateLimiterState m)
             < 60000) ->
  fst (admissions rt cfg world n m)
  = Z.to_nat (Z.min (Z.of_nat n) (L - count (rateLimiterState m))).
Proof.
  induction n as [| n IH]; intros m HL Hpos Hin; [simpl; lia |].
  cbn [admissions]. rewrite (checkRateLimit_step L m HL Hpos).
  pose proof (Hin 0%nat ltac:(lia)) as H0.
  replace (ticks m + 0)%nat with (ticks m) in H0 by lia.
  cbv zeta.
  replace (60000 <=? clock world (ticks m) - windowStart (rateLimiterState m))
    with false by (symmetry; apply Z.leb_gt; lia).
  destruct (L <=? count (rateLimiterState m)) eqn:E.
  - apply Z.leb_le in E. rewrite IH; [simpl; lia | assumption .. |].
    intros i Hi. simpl.
    replace (S (ticks m + i)) with (ticks m + S i)%nat by lia.
    apply Hin. lia.
  - apply Z.leb_gt in E.
    match goal with
    | |- context [admissions rt cfg world n ?m1] =>
        specialize (IH m1 HL Hpos);
        destruct (admissions rt cfg world n m1) as [k m2]
    end.
    simpl in *. rewrite IH; [lia |].
    intros i Hi.
    replace (S (ticks m + i)) with (ticks m + S i)%nat by lia.
    apply Hin. lia.
Qed.

Lemma callTool_limiter request m o m' :
  callTool rt cfg world request m = (o, m') ->
  rateLimiterState m' = rateLimiterState m
  \/ rateLimiterState m'
     = rateLimiterState (snd (checkRateLimit rt cfg world m)).
Proof.
  unfold callTool.
  destruct (jsstring_eqb (name request) SEND_TOOL_NAME).
  - intros Hcall.
    apply send_email_outcome in Hcall
      as [(e & _ & _ & _ & [[_ ->] | [_ [-> | ->]]])
         | (args & parsed & n & m1 & _ & _ & _ & _ & Hr & Hd)]; auto.
    apply deliver_effect in Hd as (_ & -> & _). right. by rewrite Hr.
  - destruct (jsstring_eqb (name request) HEALTH_TOOL_NAME).
    + rewrite health_check_run. intros [= <- <-]. by left.
    + intros [= <- <-]. by left.
Qed.

(** X15: the send count stays within the quota: with a finite positive
    limit [L], a machine whose count is between 0 and [L] (as at start-up,
    where it is 0) still has its count between 0 and [L] after any sequence
    of requests. *)
Theorem send_count_bounded L requests : forall m os m',
  RATE_LIMIT_PER_MINUTE cfg = Finite L -> 0 < L ->
  0 <= count (rateLimiterState m) <= L ->
  serve rt cfg world requests m = (os, m') ->
  0 <= count (rateLimiterState m') <= L.
Proof.
  induction requests as [| request rest IH]; intros m os m' HL Hpos Hm; simpl.
  - by intros [= <- <-].
  - destruct (callTool rt cfg world request m) as [o m1] eqn:E1.
    destruct (serve rt cfg world rest m1) as [os' m2] eqn:E2.
    intros [= <- <-]. eapply (IH m1); [assumption .. | | exact E2].
    apply callTool_limiter in E1 as [-> | ->]; [assumption |].
    rewrite (checkRateLimit_step L m HL Hpos). cbv zeta.
    destruct (60000 <=? _); simpl.
    + destruct (L <=? 0) eqn:E; simpl; lia.
    + destruct (L <=? count (rateLimiterState m)) eqn:E; simpl; [lia |].
      apply Z.leb_gt in E. lia.
Qed.

(** X16: with the limit switched off (not finite, or zero or less) no call
    changes the limiter's window start or count; and if the allow list is
    empty as well, no call is ever refused with an invalid-request error. *)
Theorem guards_off request m o m' :
  match RATE_LIMIT_PER_MINUTE cfg with
  | Finite L => L <= 0
  | _ => True
  end ->
  callTool rt cfg world request m = (o, m') ->
  rateLimiterState m' = rateLimiterState m
  /\ (ALLOW_LIST cfg = ∅ ->
      forall e, o = Throw e -> code e <> InvalidRequest).
Proof.
  intros Hoff Hcall. pose proof (checkRateLimit_off m Hoff) as Hcheck. split.
  - apply callTool_limiter in Hcall as [-> | ->]; [reflexivity |].
    by rewrite Hcheck.
  - intros Hempty e ->. unfold callTool in Hcall.
    destruct (jsstring_eqb (name request) SEND_TOOL_NAME).
    + destruct (arguments request) as [args |];
        [| injection Hcall as <- _; discriminate].
      rewrite send_email_stages, Hcheck in Hcall.
      destruct (parseSendEmailArgs rt args) as [parsed | e'] eqn:Ep.
      2: { injection Hcall as <- _. by rewrite (parse_Throw _ _ _ Ep). }
      destruct (normalizeEmailArgs parsed) as [n | e'] eqn:En.
      2: { injection Hcall as <- _. by rewrite (normalizeEmailArgs_Throw _ _ En). }
      rewrite (proj2 (enforceAllowList_Return _) (or_introl Hempty)) in Hcall.
      apply deliver_effect in Hcall
        as (_ & _ & [(info & _ & [=] & _) | (e' & _ & [= ->] & _)]).
      discriminate.
    + destruct (jsstring_eqb (name request) HEALTH_TOOL_NAME).
      * by rewrite health_check_run in Hcall.
      * injection Hcall as <- _. discriminate.
Qed.

(** X18: a call made 60000 ms or more after the start of the window is
    never refused: it opens a new window at the current clock reading and is
    admitted as the first call of that window, however full the old window
    was. *)
Theorem admitted_after_full_window L m :
  RATE_LIMIT_PER_MINUTE cfg = Finite L -> 0 < L ->
  60000 <= clock world (ticks m) - windowStart (rateLimiterState m) ->
  exists m',
    checkRateLimit rt cfg world m = (Return tt, m')
    /\ rateLimiterState m' = mkRateLimiterState (clock world (ticks m)) 1
    /\ lastSendResult m' = lastSendResult m.
Proof.
  intros HL Hpos Hlate. rewrite (checkRateLimit_step L m HL Hpos). cbv zeta.
  replace (60000 <=? clock world (ticks m) - windowStart (rateLimiterState m))
    with true by (symmetry; apply Z.leb_le; lia).
  simpl. replace (L <=? 0) with false by (symmetry; apply Z.leb_gt; lia).
  eexists. split; [reflexivity |]. by split.
Qed.

(** *** Blank subject *)

(** X17: a subject made of whitespace only is not refused: when such a
    request reaches the transport, the message goes out with the empty
    subject. *)
Theorem blank_subject_sent_empty args s m o m' opts :
  args !! js "subject" = Some (JString s) ->
  Forall (fun c => isWhiteSpace c = true) s ->
  callTool rt cfg world (mkRequest SEND_TOOL_NAME (Some args)) m = (o, m') ->
  EvSendMail opts ∈ eventsSince m m' ->
  mail_subject opts = [].
Proof.
  intros Hs Hblank. rewrite callTool_send. intros Hcall Hev.
  apply send_email_outcome in Hcall
    as [(e & _ & Ht & _) | (args' & parsed & n & m1 & [= <-] & Hp & Hn & _ & Hr & Hd)].
  { rewrite (no_events _ _ Ht) in Hev. by apply not_elem_of_nil in Hev. }
  apply checkRateLimit_frame in Hr as [Ht1 _].
  apply deliver_effect in Hd as (Ht & _).
  rewrite Ht1 in Ht. rewrite (eventsSince_app _ _ _ Ht) in Hev.
  apply list_elem_of_singleton in Hev. injection Hev as ->.
  apply parse_Return, parse_fields in Hp as (_ & Hsub & _).
  rewrite Hs in Hsub. injection Hsub as ->.
  apply normalizeEmailArgs_inv in Hn as (_ & _ & _ & _ & _ & Esub & _).
  unfold transportOptions. simpl. rewrite Esub. by apply trim_blank.
Qed.

End Handler.

(** ** The further properties on concrete runs *)


Lemma error_kinds_witness :
  (code (mkMcpError MethodNotFound (js "Unknown tool: list_mail"))
   = MethodNotFound
   <-> js "list_mail" <> SEND_TOOL_NAME /\ js "list_mail" <> HEALTH_TOOL_NAME)
  /\ (code (mkMcpError MethodNotFound (js "Unknown tool: list_mail"))
      = InternalError
      <-> transportInvoked Sample.machine0 Sample.machine0)
  /\ (code (mkMcpError MethodNotFound (js "Unknown tool: list_mail"))
      = InvalidParams -> Sample.machine0 = Sample.machine0).
Proof.
  apply (error_kinds Sample.runtime Sample.cfgOpen Sample.calmWorld
           (mkRequest (js "list_mail") None) Sample.machine0
           (mkMcpError MethodNotFound (js "Unknown tool: list_mail"))
           Sample.machine0).
  vm_compute. reflexivity.
Defined.

Lemma success_means_sent_witness :
  lastSendResult
    (snd (callTool Sample.runtime Sample.cfgOpen Sample.calmWorld
            (mkRequest SEND_TOOL_NAME (Some Sample.plainArgs))
            Sample.machine0))
  = Some (SendSuccess 1700000002000 (Some (js "<id-1@proton.me>"))).
Proof.
  set (run := callTool Sample.runtime Sample.cfgOpen Sample.calmWorld
                (mkRequest SEND_TOOL_NAME (Some Sample.plainArgs))
                Sample.machine0).
  pose proof (surjective_pairing run) as Hrun.
  destruct (fst run) as [r | e] eqn:Ef; [| vm_compute in Ef; discriminate].
  destruct (success_means_sent Sample.runtime Sample.cfgOpen Sample.calmWorld
              _ Sample.machine0 r (snd run) Hrun)
    as (args & parsed & normalized & info & k
        & _ & _ & _ & _ & _ & Hticks & Hsent & Hslot & _).
  vm_compute in Hticks. injection Hticks as <-.
  change (sendMail Sample.calmWorld 1%nat (transportOptions Sample.cfgOpen normalized))
    with (@Resolved SentMessageInfo (mkInfo (Some (js "<id-1@proton.me>"))))
    in Hsent.
  injection Hsent as <-. exact Hslot.
Defined.

Lemma quota_kept_on_transport_failure_witness :
  rateLimiterState
    (snd (callTool Sample.runtime Sample.cfgOpen Sample.downWorld
            (mkRequest SEND_TOOL_NAME (Some Sample.plainArgs))
            Sample.machine0))
  = mkRateLimiterState 1700000000000 1.
Proof.
  set (run := callTool Sample.runtime Sample.cfgOpen Sample.downWorld
                (mkRequest SEND_TOOL_NAME (Some Sample.plainArgs))
                Sample.machine0).
  transitivity
    (rateLimiterState
       (snd (checkRateLimit Sample.runtime Sample.cfgOpen Sample.downWorld
               Sample.machine0)));
    [| vm_compute; reflexivity].
  apply (quota_kept_on_transport_failure Sample.runtime Sample.cfgOpen
           Sample.downWorld _ Sample.machine0 (fst run) (snd run)
           (surjective_pairing run)).
  unfold transportInvoked.
  destruct (eventsSince _ _) as [| ev evs] eqn:E; vm_compute in E;
    [discriminate |].
  injection E as <- <-. eexists. left.
Defined.


Lemma allow_list_from_environment_witness :
  enforceAllowList Sample.runtime Sample.cfgAllow [js "a@X.COM"] = Return tt.
Proof.
  apply (proj2 (allow_list_from_environment Sample.runtime Sample.cfgAllow
                  (js "A@x.com") [js "a@X.COM"] eq_refl)).
  right. constructor; [| constructor]. unfold listedIn. split.
  - vm_compute. discriminate.
  - exists (js "A@x.com"). split; [| vm_compute; reflexivity].
    apply list_elem_of_In. vm_compute. tauto.
Defined.

Lemma blank_allow_list_disables_witness :
  parseAllowList Sample.runtime (js " , ") = ∅
  /\ enforceAllowList Sample.runtime Sample.cfgBlank [js "anyone@x.com"]
     = Return tt.
Proof.
  apply (blank_allow_list_disables Sample.runtime Sample.cfgBlank (js " , ")).
  - reflexivity.
  - unfold blankList. vm_compute.
    repeat (constructor; [first [left; reflexivity | right; reflexivity] |]).
    constructor.
  - reflexivity.
Defined.

Lemma schema_accepts_iff_witness :
  exists parsed,
    parseSendEmailArgs Sample.runtime Sample.plainArgs = Return parsed.
Proof.
  apply (proj1 (schema_accepts_iff Sample.runtime Sample.plainArgs)).
  apply accepted_fields.
  repeat split;
    first [ left; vm_compute; reflexivity
          | eexists; split; [vm_compute; reflexivity |];
            vm_compute; split; discriminate ].
Defined.

Lemma unknown_keys_ignored_witness :
  callTool Sample.runtime Sample.cfgOpen Sample.calmWorld
    (mkRequest SEND_TOOL_NAME
       (Some (<[js "priority" := JNumber]> Sample.plainArgs)))
    Sample.machine0
  = callTool Sample.runtime Sample.cfgOpen Sample.calmWorld
      (mkRequest SEND_TOOL_NAME (Some Sample.plainArgs)) Sample.machine0.
Proof.
  apply unknown_keys_ignored.
  intros Hin. apply list_elem_of_In in Hin. vm_compute in Hin.
  intuition discriminate.
Defined.

Lemma schema_reports_every_field_witness :
  parseSendEmailArgs Sample.runtime Sample.badArgs
  = Throw (mkMcpError InvalidParams
             (js "to: 'to' is required; subject: Required")).
Proof.
  destruct (sendEmailSchema_parse Sample.runtime Sample.badArgs)
    as [issues | parsed] eqn:E; [| vm_compute in E; discriminate].
  destruct (schema_reports_every_field Sample.runtime Sample.badArgs issues E)
    as (_ & _ & _ & Hthrow).
  rewrite Hthrow. vm_compute in E. injection E as <-.
  vm_compute. reflexivity.
Defined.

Lemma window_quota_witness :
  fst (admissions Sample.runtime Sample.cfgOpen Sample.windowWorld 3
         Sample.machineAtZero)
  = 2%nat.
Proof.
  rewrite (window_quota Sample.runtime Sample.cfgOpen Sample.windowWorld 2 3
             Sample.machineAtZero eq_refl eq_refl).
  - reflexivity.
  - intros i Hi. destruct i as [| [| [| i]]]; [reflexivity .. | lia].
Defined.

Lemma send_count_bounded_witness :
  0 <= count (rateLimiterState
                (snd (serve Sample.runtime Sample.cfgOpen Sample.calmWorld
                        [Sample.plainRequest; Sample.plainRequest;
                         Sample.plainRequest] Sample.machine0)))
  <= 2.
Proof.
  apply (send_count_bounded Sample.runtime Sample.cfgOpen Sample.calmWorld 2
           [Sample.plainRequest; Sample.plainRequest; Sample.plainRequest]
           Sample.machine0
           (fst (serve Sample.runtime Sample.cfgOpen Sample.calmWorld
                   [Sample.plainRequest; Sample.plainRequest;
                    Sample.plainRequest] Sample.machine0))).
  - reflexivity.
  - reflexivity.
  - vm_compute. split; discriminate.
  - apply surjective_pairing.
Defined.

Lemma guards_off_witness :
  rateLimiterState
    (snd (callTool Sample.runtime Sample.cfgOff Sample.calmWorld
            Sample.plainRequest Sample.machine0))
  = rateLimiterState Sample.machine0.
Proof.
  refine (proj1 (guards_off Sample.runtime Sample.cfgOff Sample.calmWorld
                   Sample.plainRequest Sample.machine0 _ _ _
                   (surjective_pairing _))).
  vm_compute. discriminate.
Defined.

Lemma blank_subject_sent_empty_witness :
  exists opts,
    EvSendMail opts
    ∈ eventsSince Sample.machine0
        (snd (callTool Sample.runtime Sample.cfgOpen Sample.calmWorld
                (mkRequest SEND_TOOL_NAME (Some Sample.blankSubjectArgs))
                Sample.machine0))
    /\ mail_subject opts = [].
Proof.
  set (run := callTool Sample.runtime Sample.cfgOpen Sample.calmWorld
                (mkRequest SEND_TOOL_NAME (Some Sample.blankSubjectArgs))
                Sample.machine0).
  assert (Hev : exists opts, EvSendMail opts ∈ eventsSince Sample.machine0 (snd run)).
  { destruct (eventsSince _ _) as [| ev evs] eqn:E; vm_compute in E;
      [discriminate |].
    injection E as <- <-. eexists. left. }
  destruct Hev as [opts Hev]. exists opts. split; [exact Hev |].
  apply (blank_subject_sent_empty Sample.runtime Sample.cfgOpen
           Sample.calmWorld Sample.blankSubjectArgs (js "  ")
           Sample.machine0 (fst run) (snd run) opts).
  - vm_compute. reflexivity.
  - repeat constructor.
  - apply surjective_pairing.
  - exact Hev.
Defined.

Lemma admitted_after_full_window_witness :
  exists m',
    checkRateLimit Sample.runtime Sample.cfgOpen Sample.calmWorld
      (mkMachine (mkRateLimiterState 1600000000000 2) None 0 [])
    = (Return tt, m')
    /\ rateLimiterState m' = mkRateLimiterState 1700000000000 1
    /\ lastSendResult m' = None.
Proof.
  apply (admitted_after_full_window Sample.runtime Sample.cfgOpen
           Sample.calmWorld 2
           (mkMachine (mkRateLimiterState 1600000000000 2) None 0 [])).
  - reflexivity.
  - reflexivity.
  - vm_compute. discriminate.
Defined.
